(** * AWL tutorial: identity, challenge-response authentication and routing

    A shallow embedding of the Go programs of the AWL tutorial:

    - the cryptographic identity ([GenerateIdentity]),
    - the challenge-response protocol of tutorial/phase2/auth
      ([GenerateChallenge], [RespondToChallenge], [VerifyResponse]),
    - the routing table and the packet pipeline ([AddPeer], [AddRoute],
      [GetPeer], [parsePacket], [processVPNPacket]),

    and a model of the trust store and the auth engine, whose code is not
    part of the tutorial, after their specification.

    Byte slices are lists of bytes, Go maps are finite maps, [int64] and
    [time.Duration] are integers with their wrap-around or saturation
    written out, a Go panic is a result of its own, and the entropy source
    and the wall clock are explicit state.  The functions of the Go
    standard library that the programs call (ed25519, encoding/json,
    Duration formatting) are operations of an interface, with the laws the
    library documents. *)

From Stdlib Require Import ZArith NArith Strings.Byte Ascii.
From stdpp Require Import base strings list gmap fin_maps pretty.

Local Open Scope Z_scope.

(** ** Go values *)

(** A byte slice. *)
Abbreviation bytes := (list byte).

#[global] Instance byte_eq_decision : EqDecision byte := Byte.byte_eq_dec.

(** A Go [error] value is represented by its message. *)
Definition error := string.

(** A computation that returns normally or panics with a message. *)
Inductive Go (A : Type) : Type :=
| Return (a : A)
| Panic (msg : string).
Arguments Return {A} a.
Arguments Panic {A} msg.

Definition go_bind {A B} (m : Go A) (k : A -> Go B) : Go B :=
  match m with
  | Return a => k a
  | Panic msg => Panic msg
  end.

Notation "x <-! m ; k" := (go_bind m (fun x => k))
  (at level 100, m at next level, right associativity, only parsing).

(** [strconv.Itoa] on a length. *)
Definition Itoa (n : nat) : string := pretty (N.of_nat n).

(** ** encoding/base64, [StdEncoding.EncodeToString] *)

Module base64.

Definition encodeStd : string :=
  "ABCDEFGHIJKLMNOPQRSTUVWXYZabcdefghijklmnopqrstuvwxyz0123456789+/".

Definition StdPadding : ascii := "="%char.

(** [enc.encode[val >> s & 0x3F]] *)
Definition digit (val : N) (s : N) : ascii :=
  match String.get (N.to_nat (N.land (N.shiftr val s) 63)) encodeStd with
  | Some c => c
  | None => StdPadding
  end.

Definition u (b : byte) : N := Byte.to_N b.

(** The loop over whole 3-byte groups followed by the 1- or 2-byte
    remainder, padded. *)
Fixpoint EncodeToString (src : bytes) : string :=
  match src with
  | [] => EmptyString
  | [b0] =>
      let val := N.shiftl (u b0) 16 in
      String (digit val 18) (String (digit val 12)
        (String StdPadding (String StdPadding EmptyString)))
  | [b0; b1] =>
      let val := N.lor (N.shiftl (u b0) 16) (N.shiftl (u b1) 8) in
      String (digit val 18) (String (digit val 12)
        (String (digit val 6) (String StdPadding EmptyString)))
  | b0 :: b1 :: b2 :: rest =>
      let val := N.lor (N.lor (N.shiftl (u b0) 16) (N.shiftl (u b1) 8)) (u b2) in
      String (digit val 18) (String (digit val 12)
        (String (digit val 6) (String (digit val 0) (EncodeToString rest))))
  end.

End base64.

(** ** crypto/ed25519 *)

Definition PublicKeySize : nat := 32.
Definition PrivateKeySize : nat := 64.
Definition SeedSize : nat := 32.

(** The arithmetic of the signature scheme: the public key of a seed, the
    signature of a message under a 64-byte private key, the verification
    equation.  [verify_sign] is the correctness of the scheme: a signature
    made with the private key of a seed verifies under its public key. *)
Class Ed25519 : Type := {
  publicOfSeed : bytes -> bytes;
  sign : bytes -> bytes -> bytes;
  verify : bytes -> bytes -> bytes -> bool;
  publicOfSeed_length :
    forall seed, length seed = SeedSize -> length (publicOfSeed seed) = PublicKeySize;
  verify_sign :
    forall seed message, length seed = SeedSize ->
      verify (publicOfSeed seed) message (sign (seed ++ publicOfSeed seed) message) = true
}.

(** ** The entropy source

    A reader hands out the bytes of [supply] in order and fails with
    [failure] once they are used up. *)
Record Reader : Type := {
  supply : bytes;
  failure : error
}.

(** [io.ReadFull(r, buf)] on a zeroed buffer of [n] bytes: the buffer after
    the call, the error, and the reader after the call. *)
Definition io_ReadFull (r : Reader) (n : nat) : bytes * option error * Reader :=
  if decide (n <= length (supply r))%nat
  then (take n (supply r), None,
        {| supply := drop n (supply r); failure := failure r |})
  else (supply r ++ replicate (n - length (supply r)) "000"%byte, Some (failure r),
        {| supply := []; failure := failure r |}).

Section Identity.

Context {scheme : Ed25519}.

Definition ed25519_NewKeyFromSeed (seed : bytes) : bytes :=
  seed ++ publicOfSeed seed.

(** [ed25519.GenerateKey(rand)]: public key, private key, error. *)
Definition ed25519_GenerateKey (rand : Reader)
  : bytes * bytes * option error * Reader :=
  let '(seed, err, rand') := io_ReadFull rand SeedSize in
  match err with
  | Some e => ([], [], Some e, rand')
  | None =>
      let privateKey := ed25519_NewKeyFromSeed seed in
      let publicKey := drop 32 privateKey in
      (publicKey, privateKey, None, rand')
  end.

(** [ed25519.Sign]: panics on a private key of the wrong length. *)
Definition ed25519_Sign (privateKey message : bytes) : Go bytes :=
  if decide (length privateKey = PrivateKeySize)
  then Return (sign privateKey message)
  else Panic ("ed25519: bad private key length: " +:+ Itoa (length privateKey)).

(** [ed25519.Verify]: panics on a public key of the wrong length. *)
Definition ed25519_Verify (publicKey message sig : bytes) : Go bool :=
  if decide (length publicKey = PublicKeySize)
  then Return (verify publicKey message sig)
  else Panic ("ed25519: bad public key length: " +:+ Itoa (length publicKey)).

Record PeerIdentity : Type := {
  PublicKey : bytes;
  PrivateKey : bytes;
  ID : string
}.

(** [GenerateIdentity]: the identity (or nil), the error, and
    [rand.Reader] after the call. *)
Definition GenerateIdentity (rand : Reader)
  : option PeerIdentity * option error * Reader :=
  let '(pub, priv, err, rand') := ed25519_GenerateKey rand in
  match err with
  | Some e => (None, Some e, rand')
  | None =>
      let id := base64.EncodeToString pub in
      (Some {| PublicKey := pub; PrivateKey := priv; ID := id |}, None, rand')
  end.

(** The [Sign] method of an identity and [VerifySignature]. *)
Definition PeerIdentity_Sign (pi : PeerIdentity) (message : bytes) : Go bytes :=
  ed25519_Sign (PrivateKey pi) message.

Definition VerifySignature (publicKey message signature : bytes) : Go bool :=
  ed25519_Verify publicKey message signature.

End Identity.

(** ** package time *)

(** An instant of the wall clock, in nanoseconds since the Unix epoch (the
    zone and the monotonic reading of a [time.Time] are left out). *)
Definition Time := Z.

(** [time.Duration] is an [int64] count of nanoseconds. *)
Definition Duration := Z.
Definition minDuration : Duration := - 2 ^ 63.
Definition maxDuration : Duration := 2 ^ 63 - 1.
Definition Second : Duration := 1000000000.

(** [t.Sub(u)]: the difference, or [maxDuration] / [minDuration] when it
    does not fit a [Duration]. *)
Definition time_Sub (t u : Time) : Duration :=
  let d := t - u in
  if decide (d < minDuration) then minDuration
  else if decide (maxDuration < d) then maxDuration
  else d.

(** [time.Since(t)], at the instant [now]. *)
Definition time_Since (now t : Time) : Duration := time_Sub now t.

(** Conversion to [int64], wrapping. *)
Definition int64 (z : Z) : Z := (z + 2 ^ 63) mod 2 ^ 64 - 2 ^ 63.

(** [t.UnixNano()]: the result wraps when it does not fit an [int64]. *)
Definition UnixNano (t : Time) : Z := int64 t.

(** The wall clock: the [n]-th call of [time.Now] returns [reading n]. *)
Record Clock : Type := {
  reading : nat -> Time;
  reads : nat
}.

Definition time_Now (c : Clock) : Time * Clock :=
  (reading c (reads c), {| reading := reading c; reads := S (reads c) |}).

(** ** The challenge-response protocol (tutorial/phase2/auth) *)

Record AuthChallenge : Type := {
  Challenge : bytes;
  Timestamp : Time;
  Nonce : Z
}.

Record AuthResponse : Type := {
  PeerID : string;
  Signature : bytes
}.

(** [json.Marshal] on a challenge, with the data and the error it returns
    (the data is nil when there is an error), and the rendering of a
    [Duration] by the verb [%v]. *)
Class Encoding : Type := {
  json_Marshal : AuthChallenge -> bytes * option error;
  json_Marshal_error :
    forall c e, (json_Marshal c).2 = Some e -> (json_Marshal c).1 = [];
  Duration_String : Duration -> string
}.

(** What a process reads from its environment. *)
Record World : Type := {
  rand_Reader : Reader;
  clock : Clock
}.

Section Auth.

Context {scheme : Ed25519} {enc : Encoding}.

(** [rand.Read(b)] on a fresh buffer of [n] bytes; the caller drops the
    error.  The outcome is that of the program where the source delivers
    the [n] bytes; where it does not, [crypto/rand] of Go 1.24 and later
    ends the process instead of returning. *)
Definition rand_Read (w : World) (n : nat) : bytes * option error * World :=
  let '(b, err, r) := io_ReadFull (rand_Reader w) n in
  (b, err, {| rand_Reader := r; clock := clock w |}).

Definition GenerateChallenge (w : World) : AuthChallenge * World :=
  let '(challenge, _, w1) := rand_Read w 32 in
  let '(t1, c1) := time_Now (clock w1) in
  let '(t2, c2) := time_Now c1 in
  ({| Challenge := challenge;
      Timestamp := t1;
      Nonce := UnixNano t2 |},
   {| rand_Reader := rand_Reader w1; clock := c2 |}).

Definition RespondToChallenge (pi : PeerIdentity) (challenge : AuthChallenge)
  : Go AuthResponse :=
  let '(data, _) := json_Marshal challenge in
  signature <-! ed25519_Sign (PrivateKey pi) data;
  Return {| PeerID := ID pi; Signature := signature |}.

(** [VerifyResponse], with [now] the instant at which [time.Since] reads
    the clock. *)
Definition VerifyResponse (now : Time) (challenge : AuthChallenge)
    (response : AuthResponse) (publicKey : bytes) : Go (bool * string) :=
  let age := time_Since now (Timestamp challenge) in
  if decide (age > 30 * Second)
  then Return (false, "challenge expired (age: " +:+ Duration_String age +:+ ")")
  else
    let '(data, _) := json_Marshal challenge in
    valid <-! ed25519_Verify publicKey data (Signature response);
    if negb valid
    then Return (false, "invalid signature")
    else Return (true, "authentication successful").

(** [generateTestIdentity(name)] *)
Definition generateTestIdentity (name : string) (w : World)
  : option PeerIdentity * option error * World :=
  let '(pub, priv, err, r) := ed25519_GenerateKey (rand_Reader w) in
  match err with
  | Some e => (None, Some e, {| rand_Reader := r; clock := clock w |})
  | None =>
      let '(t, c) := time_Now (clock w) in
      (Some {| PublicKey := pub;
               PrivateKey := priv;
               ID := name +:+ "-test-id-" +:+ pretty (Z.rem (UnixNano t) 10000) |},
       None, {| rand_Reader := r; clock := c |})
  end.

End Auth.

(** The outcomes of a verification as the specification names them, and the
    outcome that a message of [VerifyResponse] stands for. *)
Inductive Reason : Type := OK | Expired | BadSignature | KeyMismatch.

Definition reason_of (msg : string) : option Reason :=
  if String.eqb msg "authentication successful" then Some OK
  else if String.eqb msg "invalid signature" then Some BadSignature
  else if String.prefix "challenge expired" msg then Some Expired
  else None.

(** The keys of an identity are a key pair of the scheme: the ones
    [ed25519.GenerateKey] makes from a seed. *)
Definition KeyPair `{Ed25519} (pub priv : bytes) : Prop :=
  exists seed, length seed = SeedSize /\
    priv = seed ++ publicOfSeed seed /\ pub = publicOfSeed seed.

(** A single-bit mutation of the nonce: bit [k] of byte [i] is flipped, as
    [challenge.Challenge[i] ^= 1 << k] does. *)
Definition xor_byte (b : byte) (mask : N) : byte :=
  match Byte.of_N (N.lxor (Byte.to_N b) mask) with
  | Some b' => b'
  | None => b
  end.

Definition flipBit (k : nat) (b : byte) : byte :=
  xor_byte b (N.shiftl 1 (N.of_nat k)).

Definition flipNonceBit (i k : nat) (c : AuthChallenge) : AuthChallenge :=
  {| Challenge := alter (flipBit k) i (Challenge c);
     Timestamp := Timestamp c;
     Nonce := Nonce c |}.

(** ** The routing table and the packet pipeline *)

Module Routing.

Record PeerInfo : Type := {
  ID : string;
  Name : string;
  Address : string;
  Status : string
}.

#[global] Instance PeerInfo_eq_decision : EqDecision PeerInfo.
Proof. solve_decision. Defined.

(** The two maps of the table; its mutex serialises the methods, each of
    which is one step on this state. *)
Record RoutingTable : Type := {
  routes : gmap string string;
  peers : gmap string PeerInfo
}.

Definition NewRoutingTable : RoutingTable :=
  {| routes := ∅; peers := ∅ |}.

Definition AddPeer (info : PeerInfo) (rt : RoutingTable) : RoutingTable :=
  {| routes := routes rt; peers := <[ID info := info]> (peers rt) |}.

Definition AddRoute (ip peerID : string) (rt : RoutingTable)
  : option error * RoutingTable :=
  match peers rt !! peerID with
  | None => (Some ("peer " +:+ peerID +:+ " not found"), rt)
  | Some _ =>
      (None, {| routes := <[ip := peerID]> (routes rt); peers := peers rt |})
  end.

(** The zero value [PeerInfo{}]. *)
Definition PeerInfo_zero : PeerInfo :=
  {| ID := ""; Name := ""; Address := ""; Status := "" |}.

Definition GetPeer (ip : string) (rt : RoutingTable) : PeerInfo * bool :=
  match routes rt !! ip with
  | None => (PeerInfo_zero, false)
  | Some peerID =>
      match peers rt !! peerID with
      | Some peer => (peer, true)
      | None => (PeerInfo_zero, false)
      end
  end.

(** A four-byte address, as the slices [data[12:16]] and [data[16:20]]
    are. *)
Definition IP : Type := byte * byte * byte * byte.

Record Packet : Type := {
  SrcIP : IP;
  DstIP : IP;
  Protocol : byte;
  Data : bytes
}.

Definition at_ (data : bytes) (i : nat) : byte := nth i data "000"%byte.

Definition slice4 (data : bytes) (i : nat) : IP :=
  (at_ data i, at_ data (i + 1), at_ data (i + 2), at_ data (i + 3)).

(** [parsePacket]: the packet, or the error. *)
Definition parsePacket (data : bytes) : Packet + error :=
  if decide (length data < 20)%nat
  then inr "packet too short"
  else inl {| SrcIP := slice4 data 12;
              DstIP := slice4 data 16;
              Protocol := at_ data 9;
              Data := data |}.

(** [ip.String()] on a four-byte address: dotted decimal. *)
Definition IP_String (ip : IP) : string :=
  let '(a, b, c, d) := ip in
  pretty (Byte.to_N a) +:+ "." +:+ pretty (Byte.to_N b) +:+ "." +:+
  pretty (Byte.to_N c) +:+ "." +:+ pretty (Byte.to_N d).

(** What [processVPNPacket] does with a packet; the function returns
    nothing and reports each case on standard output only. *)
Inductive Disposition : Type :=
| ParseError (err : error)          (* "Error parsing packet" *)
| NoRoute (dstIP : string)          (* "No route to ... - dropping packet" *)
| NotConnected (peer : PeerInfo)    (* "Peer ... is ... - queueing packet" *)
| Routed (dstIP : string) (peer : PeerInfo). (* "Routing packet to ..." *)

Definition processVPNPacket (packetData : bytes) (routingTable : RoutingTable)
  : Disposition :=
  match parsePacket packetData with
  | inr err => ParseError err
  | inl packet =>
      let dstIP := IP_String (DstIP packet) in
      let '(peer, exists_) := GetPeer dstIP routingTable in
      if negb exists_ then NoRoute dstIP
      else if negb (String.eqb (Status peer) "connected") then NotConnected peer
      else Routed dstIP peer
  end.

(** The packet goes on to a peer. *)
Definition forwarded (d : Disposition) : bool :=
  match d with
  | Routed _ _ => true
  | _ => false
  end.

(** Every route leads to a registered peer. *)
Definition routes_registered (rt : RoutingTable) : Prop :=
  forall ip peerID, routes rt !! ip = Some peerID -> is_Some (peers rt !! peerID).

(** The tables that the methods build from the empty one. *)
Inductive reachable : RoutingTable -> Prop :=
| reach_new : reachable NewRoutingTable
| reach_AddPeer info rt : reachable rt -> reachable (AddPeer info rt)
| reach_AddRoute ip peerID rt : reachable rt -> reachable (AddRoute ip peerID rt).2.

(** The table and a packet of [main]. *)
Definition demo_peers : list PeerInfo :=
  [ {| ID := "peer-alice"; Name := "Alice's Computer";
       Address := "192.168.1.100:9001"; Status := "connected" |};
    {| ID := "peer-bob"; Name := "Bob's Laptop";
       Address := "192.168.1.101:9001"; Status := "connected" |};
    {| ID := "peer-charlie"; Name := "Charlie's Phone";
       Address := "10.0.0.50:9001"; Status := "connecting" |};
    {| ID := "peer-david"; Name := "David's Server";
       Address := "203.0.113.1:9001"; Status := "disconnected" |} ].

Definition demo_routes : list (string * string) :=
  [ ("10.66.0.2", "peer-alice"); ("10.66.0.3", "peer-bob");
    ("10.66.0.4", "peer-charlie"); ("10.66.0.5", "peer-david") ].

Definition demo_table : RoutingTable :=
  foldl (fun rt r => (AddRoute r.1 r.2 rt).2)
    (foldl (fun rt p => AddPeer p rt) NewRoutingTable demo_peers) demo_routes.

(** The packet that [createFakePacket] fills in, from the two addresses
    already parsed; [Packets.createFakePacket] takes their texts. *)
Definition createFakePacket (src dst : IP) : bytes :=
  let '(s0, s1, s2, s3) := src in
  let '(d0, d1, d2, d3) := dst in
  ["E"; "000"; "000"; "000"; "000"; "000"; "000"; "000"; "000"; "001";
   "000"; "000"; s0; s1; s2; s3; d0; d1; d2; d3]%byte.

End Routing.

(** ** The trust store and the auth engine *)

Module Trust.

(** Modelled from the spec: the status of a trust record (data model);
    the trust store and the auth engine are not among the sources. *)
Inductive Status : Type :=
| Unknown | PendingInbound | PendingOutbound | Authorized | Blocked.

#[global] Instance Status_eq_decision : EqDecision Status.
Proof. solve_decision. Defined.

(** Modelled from the spec: the trust record (data model), which is not
    among the sources. *)
Record TrustRecord : Type := {
  peerID : string;
  publicKey : bytes;
  displayName : string;
  status : Status;
  assignedAddress : option string;
  lastHandshakeAt : Time
}.

(** Modelled from the spec: the store maps a peer identifier to its
    record; the store is not among the sources. *)
Abbreviation TrustStore := (gmap string TrustRecord).

(** Modelled from the spec: [Get] of the trust store contract, which is
    not among the sources. *)
Definition Get (p : string) (store : TrustStore) : option TrustRecord :=
  store !! p.


(** Modelled from the spec: a record with another status; the trust
    record is not among the sources. *)
Definition with_status (s : Status) (r : TrustRecord) : TrustRecord :=
  {| peerID := peerID r; publicKey := publicKey r; displayName := displayName r;
     status := s; assignedAddress := assignedAddress r;
     lastHandshakeAt := lastHandshakeAt r |}.

(** Modelled from the spec: [SetStatus] of the trust store contract, which
    is not among the sources. *)
Definition SetStatus (p : string) (s : Status) (store : TrustStore) : TrustStore :=
  alter (with_status s) p store.

(** Modelled from the spec: [Remove] of the trust store contract (the
    record is deleted), which is not among the sources. *)
Definition Remove (p : string) (store : TrustStore) : TrustStore :=
  delete p store.


(** Modelled from the spec: the labels of the state machine of section
    4.3, which is not among the sources. *)
Inductive Event : Type :=
| InboundObserved      (* inbound connection observed *)
| OperatorAdds         (* operator adds peer *)
| OperatorApproves     (* operator approves *)
| OperatorRejects      (* operator rejects *)
| PeerApprovesUs       (* peer approves us *)
| OperatorBlocks       (* operator blocks *)
| OperatorUnblocks.    (* operator unblocks *)

(** Modelled from the spec: the transitions of the state machine of
    section 4.3 ([Blocked] is reachable from any state); an event that has
    no transition from a state leaves it as it is.  Removal deletes the
    record and is an operation of the store.  The state machine is not
    among the sources. *)
Definition transition (s : Status) (e : Event) : Status :=
  match s, e with
  | Unknown, InboundObserved => PendingInbound
  | Unknown, OperatorAdds => PendingOutbound
  | PendingInbound, OperatorApproves => Authorized
  | PendingInbound, OperatorRejects => Blocked
  | PendingOutbound, PeerApprovesUs => Authorized
  | _, OperatorBlocks => Blocked
  | Blocked, OperatorUnblocks => PendingInbound
  | s, _ => s
  end.

(** Modelled from the spec: an event on the record of a peer that has
    one; the store is not among the sources. *)
Definition fire (e : Event) (p : string) (store : TrustStore) : TrustStore :=
  alter (fun r => with_status (transition (status r) e) r) p store.

(** Modelled from the spec: what steps 2 and 3 of
    [HandleInboundHandshake] end with: the answer of [VerifyResponse], no
    answer in time, or an answer that does not parse.  The auth engine is
    not among the sources. *)
Inductive Verification : Type :=
| Answered (ok : bool) (reason : Reason)
| TimedOut
| Malformed.

(** Modelled from the spec: the handshake succeeds when [VerifyResponse]
    answers ok; the auth engine is not among the sources. *)
Definition succeeded (v : Verification) : bool :=
  match v with
  | Answered ok _ => ok
  | _ => false
  end.

(** Modelled from the spec: steps 4 and 5 of [HandleInboundHandshake]:
    on success the record is created or its [lastHandshakeAt] updated, and
    a status [Unknown] becomes [PendingInbound]; on failure the store is
    left alone.  The auth engine is not among the sources. *)
Definition HandleInboundHandshake (v : Verification) (p : string) (key : bytes)
    (now : Time) (store : TrustStore) : bool * TrustStore :=
  if succeeded v then
    let r :=
      match store !! p with
      | Some r =>
          {| peerID := peerID r; publicKey := publicKey r;
             displayName := displayName r;
             status := transition (status r) InboundObserved;
             assignedAddress := assignedAddress r;
             lastHandshakeAt := now |}
      | None =>
          {| peerID := p; publicKey := key; displayName := "";
             status := transition Unknown InboundObserved;
             assignedAddress := None;
             lastHandshakeAt := now |}
      end in
    (true, <[p := r]> store)
  else (false, store).

(** Modelled from the spec: [AddPendingOutbound] of the operator
    interface: a peer without a record gets one, a peer with a record
    takes the transition of "operator adds peer".  The operator interface
    is not among the sources. *)
Definition AddPendingOutbound (p : string) (key : bytes) (store : TrustStore)
  : TrustStore :=
  match store !! p with
  | Some _ => fire OperatorAdds p store
  | None =>
      <[p := {| peerID := p; publicKey := key; displayName := "";
                status := transition Unknown OperatorAdds;
                assignedAddress := None; lastHandshakeAt := 0 |}]> store
  end.

(** Modelled from the spec: everything that changes the store: a
    handshake, the calls of the operator interface, and the approval that
    a peer gives to a request of ours.  The store primitives [Upsert] and
    [SetStatus] are reached through these only.  The auth engine and the
    operator interface are not among the sources. *)
Inductive Operation : Type :=
| Handshake (v : Verification) (p : string) (key : bytes) (now : Time)
| OpApprove (p : string)
| OpReject (p : string)
| OpPeerApproved (p : string)
| OpBlock (p : string)
| OpUnblock (p : string)
| OpRemove (p : string)
| OpAddPendingOutbound (p : string) (key : bytes).

(** Modelled from the spec: the store after an operation; the auth engine
    and the operator interface are not among the sources. *)
Definition apply (op : Operation) (store : TrustStore) : TrustStore :=
  match op with
  | Handshake v p key now => (HandleInboundHandshake v p key now store).2
  | OpApprove p => fire OperatorApproves p store
  | OpReject p => fire OperatorRejects p store
  | OpPeerApproved p => fire PeerApprovesUs p store
  | OpBlock p => fire OperatorBlocks p store
  | OpUnblock p => fire OperatorUnblocks p store
  | OpRemove p => Remove p store
  | OpAddPendingOutbound p key => AddPendingOutbound p key store
  end.


(** Modelled from the spec: the stores that the operations build from the
    empty one. *)
Inductive reachable : TrustStore -> Prop :=
| reach_empty : reachable ∅
| reach_apply op store : reachable store -> reachable (apply op store).

End Trust.

(** ** Slices and the fourth scenario of [main]

    A byte slice is a view of an array, and a copy of a struct copies the
    view and shares the array.  The store maps the address of an array to
    its bytes; a challenge as [main] holds it names the array of its
    nonce, and a call reads the bytes that are in the array when it is
    made. *)

Module Main.

Record ChallengeRef : Type := {
  ChallengeAt : positive;
  TimestampOf : Time;
  NonceOf : Z
}.

Definition deref (heap : gmap positive bytes) (c : ChallengeRef) : AuthChallenge :=
  {| Challenge := default [] (heap !! ChallengeAt c);
     Timestamp := TimestampOf c;
     Nonce := NonceOf c |}.

(** [slice[i] ^= mask], which panics when [i] is out of range. *)
Definition xor_at (heap : gmap positive bytes) (a : positive) (i : nat) (mask : N)
  : Go (gmap positive bytes) :=
  if decide (i < length (default [] (heap !! a)))%nat
  then Return (alter (alter (fun b => xor_byte b mask) i) a heap)
  else Panic "index out of range".

Section Scenarios.

Context {scheme : Ed25519} {enc : Encoding}.

(** The modified challenge attack of [main]: the challenge is copied, the
    first byte of the nonce of the copy is changed, Bob answers the copy,
    and the answer is verified against [challenge]. *)
Definition scenario4 (now : Time) (heap : gmap positive bytes) (bob : PeerIdentity)
    (challenge : ChallengeRef) : Go (bool * string) :=
  let modifiedChallenge := challenge in
  heap' <-! xor_at heap (ChallengeAt modifiedChallenge) 0 255;
  modifiedResponse <-! RespondToChallenge bob (deref heap' modifiedChallenge);
  VerifyResponse now (deref heap' challenge) modifiedResponse (PublicKey bob).

(** The same with a copy of the array, which is what the scenario means
    to do. *)
Definition scenario4_copied (now : Time) (heap : gmap positive bytes)
    (bob : PeerIdentity) (challenge : ChallengeRef) (fresh : positive)
    : Go (bool * string) :=
  let heap1 := <[fresh := default [] (heap !! ChallengeAt challenge)]> heap in
  let modifiedChallenge :=
    {| ChallengeAt := fresh; TimestampOf := TimestampOf challenge;
       NonceOf := NonceOf challenge |} in
  heap' <-! xor_at heap1 (ChallengeAt modifiedChallenge) 0 255;
  modifiedResponse <-! RespondToChallenge bob (deref heap' modifiedChallenge);
  VerifyResponse now (deref heap' challenge) modifiedResponse (PublicKey bob).

End Scenarios.

End Main.

(** ** A small instance of the library interfaces

    Used to run the definitions on concrete inputs.  The signature scheme is
    a stand-in with the shape of ed25519 (32-byte seed and public key,
    64-byte private key) and none of its security; the encoder fails where
    [time.Time.MarshalJSON] fails, on an instant whose year is outside
    0..9999. *)

Module Sample.

Definition public_of (seed : bytes) : bytes := reverse seed.

Definition sign_with (privateKey message : bytes) : bytes :=
  public_of (take 32 privateKey) ++ message.

Definition verify_with (publicKey message sig : bytes) : bool :=
  bool_decide (sig = publicKey ++ message).

Program Definition scheme : Ed25519 :=
  {| publicOfSeed := public_of;
     sign := sign_with;
     verify := verify_with |}.
Next Obligation.
  intros seed Hlen. unfold public_of. by rewrite length_reverse.
Qed.
Next Obligation.
  intros seed message Hlen. unfold verify_with, sign_with, public_of.
  apply bool_decide_eq_true. by rewrite take_app_length'.
Qed.

(** Unix seconds of 0000-01-01T00:00:00Z and of 10000-01-01T00:00:00Z. *)
Definition year0 : Z := -62167219200.
Definition year10000 : Z := 253402300800.

Definition quote : string := String "034"%char EmptyString.

Definition marshal (c : AuthChallenge) : bytes * option error :=
  if decide (year0 <= Timestamp c `div` Second < year10000)
  then
    (String.list_byte_of_string
       ("{" +:+ quote +:+ "challenge" +:+ quote +:+ ":" +:+
        quote +:+ base64.EncodeToString (Challenge c) +:+ quote +:+
        "," +:+ quote +:+ "timestamp" +:+ quote +:+ ":" +:+ pretty (Timestamp c) +:+
        "," +:+ quote +:+ "nonce" +:+ quote +:+ ":" +:+ pretty (Nonce c) +:+ "}"),
     None)
  else
    ([], Some "json: error calling MarshalJSON for type time.Time: Time.MarshalJSON: year outside of range [0,9999]").

Definition duration_string (d : Duration) : string :=
  pretty (d `quot` Second) +:+ "s".

Program Definition enc : Encoding :=
  {| json_Marshal := marshal;
     Duration_String := duration_string |}.
Next Obligation.
  intros c e. unfold marshal. by case_decide.
Qed.

Definition seed_of (b : byte) : bytes := replicate 32 b.

(** Two identities, made from the seeds [61 61 ...] and [62 62 ...]. *)
Definition identity_of (name : string) (b : byte) : PeerIdentity :=
  {| PublicKey := public_of (seed_of b);
     PrivateKey := seed_of b ++ public_of (seed_of b);
     ID := name |}.

Definition alice : PeerIdentity := identity_of "alice-test-id-1" "a"%byte.
Definition bob : PeerIdentity := identity_of "bob-test-id-2" "b"%byte.

(** A challenge issued at second 1,700,000,000 and one dated to the first
    second of the year 10000. *)
Definition nonce32 : bytes := replicate 32 "*"%byte.

Definition issued : Time := 1700000000 * Second.

Definition challenge : AuthChallenge :=
  {| Challenge := nonce32; Timestamp := issued; Nonce := issued |}.

Definition far_challenge : AuthChallenge :=
  {| Challenge := nonce32; Timestamp := year10000 * Second; Nonce := issued |}.

(** A reader with 64 bytes left, a clock that stands still and a clock
    that ticks. *)
Definition reader64 : Reader :=
  {| supply := replicate 64 "*"%byte; failure := "EOF" |}.

Definition still_world : World :=
  {| rand_Reader := reader64;
     clock := {| reading := fun _ => issued; reads := 0 |} |}.

Definition ticking_world : World :=
  {| rand_Reader := reader64;
     clock := {| reading := fun n => issued + Z.of_nat n; reads := 0 |} |}.

(** The challenge as [main] holds it, with its nonce at address 1. *)
Definition heap : gmap positive bytes := {[ 1%positive := nonce32 ]}.

Definition challenge_ref : Main.ChallengeRef :=
  {| Main.ChallengeAt := 1; Main.TimestampOf := issued; Main.NonceOf := issued |}.

(** Instants 5 and 31 seconds after the challenge was issued. *)
Definition soon : Time := issued + 5 * Second.
Definition late : Time := issued + 31 * Second.

(** The answer of [bob] to the challenge, and the same signature under
    another name. *)
Definition bob_response : AuthResponse :=
  {| PeerID := ID bob;
     Signature := sign_with (PrivateKey bob) (marshal challenge).1 |}.

Definition renamed_response : AuthResponse :=
  {| PeerID := "mallory"; Signature := Signature bob_response |}.

(** A reader with exactly one seed left, and the identity that
    [GenerateIdentity] makes from it and from [reader64]. *)
Definition reader32 : Reader :=
  {| supply := replicate 32 "*"%byte; failure := "EOF" |}.

Definition generated : PeerIdentity :=
  {| PublicKey := public_of (replicate 32 "*"%byte);
     PrivateKey := replicate 32 "*"%byte ++ public_of (replicate 32 "*"%byte);
     ID := "KioqKioqKioqKioqKioqKioqKioqKioqKioqKioqKio=" |}.

(** Packets of [main], to Alice (connected), to Charlie (connecting) and
    to an address without a route. *)
Definition ip (d : byte) : Routing.IP := ("010", "B", "000", d)%byte.

Definition to_alice : bytes := Routing.createFakePacket (ip "001") (ip "002").
Definition to_charlie : bytes := Routing.createFakePacket (ip "001") (ip "004").
Definition to_nobody : bytes := Routing.createFakePacket (ip "001") (ip "006").

Definition alice_info : Routing.PeerInfo :=
  {| Routing.ID := "peer-alice"; Routing.Name := "Alice's Computer";
     Routing.Address := "192.168.1.100:9001"; Routing.Status := "connected" |}.

Definition charlie_info : Routing.PeerInfo :=
  {| Routing.ID := "peer-charlie"; Routing.Name := "Charlie's Phone";
     Routing.Address := "10.0.0.50:9001"; Routing.Status := "connecting" |}.

(** A table whose only peer has the status "Authorized". *)
Definition erin_info : Routing.PeerInfo :=
  {| Routing.ID := "peer-erin"; Routing.Name := "Erin's Tablet";
     Routing.Address := "192.168.1.102:9001"; Routing.Status := "Authorized" |}.

Definition authorized_table : Routing.RoutingTable :=
  (Routing.AddRoute "10.66.0.2" "peer-erin"
     (Routing.AddPeer erin_info Routing.NewRoutingTable)).2.




End Sample.

(** ** Strings and output *)

Definition nl : string := String "010"%char EmptyString.

(** [s[:n]] on a string, which panics when [n] exceeds the length. *)
Definition slice_to (s : string) (n : nat) : Go string :=
  if decide (n <= String.length s)%nat
  then Return (String.substring 0 n s)
  else Panic ("runtime error: slice bounds out of range [:" +:+ Itoa n +:+
              "] with length " +:+ Itoa (String.length s)).

(** The verb [%x] on a byte slice: two lower-case digits for each byte. *)
Definition hex_digit (n : N) : ascii :=
  match String.get (N.to_nat n) "0123456789abcdef" with
  | Some c => c
  | None => "0"%char
  end.

Fixpoint hex (data : bytes) : string :=
  match data with
  | [] => EmptyString
  | b :: rest =>
      String (hex_digit (N.shiftr (Byte.to_N b) 4))
        (String (hex_digit (N.land (Byte.to_N b) 15)) (hex rest))
  end.

(** ** The first lines of [main] of the protocol program

    [main] makes the identities of Alice and Bob, dropping the errors, and
    prints the first 16 characters of each [ID]. *)

Section Banner.

Context {scheme : Ed25519} {enc : Encoding}.

(** The field [ID] behind a pointer that may be nil. *)
Definition ID_of (pi : option PeerIdentity) : Go string :=
  match pi with
  | Some pi => Return (ID pi)
  | None => Panic "runtime error: invalid memory address or nil pointer dereference"
  end.

(** What [main] has printed when it reaches the first scenario, and the
    world after it. *)
Definition main_banner (w : World) : Go (list string * World) :=
  let out0 := ["=== AWL Tutorial: Secure Authentication Protocol ===" +:+ nl +:+ nl] in
  let '(alice, _, w1) := generateTestIdentity "alice" w in
  let '(bob, _, w2) := generateTestIdentity "bob" w1 in
  let out1 := out0 ++ ["Peers:" +:+ nl] in
  aliceID <-! ID_of alice;
  alice16 <-! slice_to aliceID 16;
  let out2 := out1 ++ ["  Alice ID: " +:+ (alice16 +:+ "...") +:+ nl] in
  bobID <-! ID_of bob;
  bob16 <-! slice_to bobID 16;
  let out3 := out2 ++ ["  Bob ID:   " +:+ (bob16 +:+ "...") +:+ nl +:+ nl] in
  Return (out3, w2).

End Banner.

(** ** The packet analyzer of the TUN program *)

Module Analyzer.

(** [packet[i]], which panics when [i] is out of range. *)
Definition at_ (packet : bytes) (i : nat) : Go byte :=
  match packet !! i with
  | Some b => Return b
  | None => Panic ("runtime error: index out of range [" +:+ Itoa i +:+
                   "] with length " +:+ Itoa (length packet))
  end.

(** [net.IP(packet[i:i+4])] *)
Definition ip_at (packet : bytes) (i : nat) : Go Routing.IP :=
  if decide (i + 4 <= length packet)%nat
  then Return (Routing.slice4 packet i)
  else Panic ("runtime error: slice bounds out of range [:" +:+ Itoa (i + 4) +:+
              "] with capacity " +:+ Itoa (length packet)).

Definition getProtocolName (protocol : byte) : string :=
  match Byte.to_N protocol with
  | 1%N => "ICMP"
  | 6%N => "TCP"
  | 17%N => "UDP"
  | n => "Unknown(" +:+ pretty n +:+ ")"
  end.

Definition getICMPType (icmpType : byte) : string :=
  match Byte.to_N icmpType with
  | 0%N => "Echo Reply"
  | 8%N => "Echo Request"
  | 3%N => "Destination Unreachable"
  | 11%N => "Time Exceeded"
  | n => "Type " +:+ pretty n
  end.

Definition min (a b : nat) : nat := if decide (a < b)%nat then a else b.

(** The lines that [analyzePacket] prints, one for each call of [Printf]
    or [Println]. *)
Definition analyzePacket (packet : bytes) (count : Z) : Go (list string) :=
  if decide (length packet < 20)%nat
  then Return ["Packet #" +:+ pretty count +:+ ": Too short (" +:+
               pretty (length packet) +:+ " bytes)" +:+ nl]
  else
    b0 <-! at_ packet 0;
    let version := N.shiftr (Byte.to_N b0) 4 in
    let headerLen := (N.land (Byte.to_N b0) 15 * 4)%N in
    protocol <-! at_ packet 9;
    srcIP <-! ip_at packet 12;
    dstIP <-! ip_at packet 16;
    let protocolName := getProtocolName protocol in
    let summary :=
      "Packet #" +:+ pretty count +:+ ": IPv" +:+ pretty version +:+ " " +:+
      Routing.IP_String srcIP +:+ " -> " +:+ Routing.IP_String dstIP +:+
      " (" +:+ protocolName +:+ ") " +:+ pretty (length packet) +:+ " bytes" +:+ nl in
    details <-!
      (if decide (count <= 3)
       then
         let lines :=
           [ "  Header Length: " +:+ pretty headerLen +:+ " bytes" +:+ nl;
             "  Protocol: " +:+ pretty (Byte.to_N protocol) +:+ " (" +:+
               protocolName +:+ ")" +:+ nl;
             "  Raw Header: " +:+ hex (take (min 20 (length packet)) packet) +:+
               "..." +:+ nl ] in
         icmp <-!
           (if decide (Byte.to_N protocol = 1%N /\ (20 < length packet)%nat)
            then
              icmpType <-! at_ packet 20;
              Return ["  ICMP Type: " +:+ pretty (Byte.to_N icmpType) +:+ " (" +:+
                      getICMPType icmpType +:+ ")" +:+ nl]
            else Return []);
         Return (lines ++ icmp ++ [nl])
       else Return []);
    Return ([summary] ++ details ++
            ["  -> Route to peer responsible for " +:+ Routing.IP_String dstIP +:+ nl;
             "  -> Or drop if no route available" +:+ nl +:+ nl]).





End Analyzer.

(** ** The bootstrap server: the registry of peers *)

Module Registry.

Record Peer : Type := {
  ID : string;
  Address : string;
  Name : string
}.

Record Registry : Type := {
  peers : gmap string Peer
}.

Definition NewRegistry : Registry := {| peers := ∅ |}.

Definition RegisterPeer (peer : Peer) (r : Registry) : Registry :=
  {| peers := <[ID peer := peer]> (peers r) |}.

(** [GetPeers] collects the values of the map in the order of the
    iteration, which Go leaves open: any arrangement of the values is a
    result. *)
Definition GetPeers (r : Registry) (result : list Peer) : Prop :=
  result ≡ₚ (map_to_list (peers r)).*2.

(** One of the results, for running the definitions. *)
Definition GetPeers_some (r : Registry) : list Peer :=
  (map_to_list (peers r)).*2.

(** A request to the server: the method, the path and what
    [json.NewDecoder(r.Body).Decode(&peer)] makes of the body. *)
Record Request : Type := {
  Method : string;
  Path : string;
  Decoded : Peer + error
}.

(** The answer: the status code and, for an error, the message of
    [http.Error]. *)
Inductive Response : Type :=
| Status (code : Z) (message : string)
| PeersJSON (result : list Peer).

(** The handler of [/register]. *)
Definition handleRegister (req : Request) (r : Registry) : Response * Registry :=
  if negb (String.eqb (Method req) "POST")
  then (Status 405 "Method not allowed", r)
  else
    match Decoded req with
    | inr _ => (Status 400 "Invalid JSON", r)
    | inl peer => (Status 200 "", RegisterPeer peer r)
    end.

(** The registry after a sequence of requests to [/register]. *)
Definition serve (reqs : list Request) (r : Registry) : Registry :=
  foldl (fun r req => (handleRegister req r).2) r reqs.

End Registry.

(** ** The packets of [main] of the routing program *)

(** [net.ParseIP(s).To4()]: the four bytes of the IPv4 address that a text
    names, or nil when the text names none.  The dotted form of an address
    is read back as that address. *)
Class Net : Type := {
  ParseIP_To4 : string -> option Routing.IP;
  ParseIP_To4_String : forall x, ParseIP_To4 (Routing.IP_String x) = Some x
}.

Module Packets.

(** The four bytes that [copy(packet[i:i+4], ip)] leaves in a zeroed
    packet: those of [ip], or zeros when [ip] is nil. *)
Definition copied (ip : option Routing.IP) : Routing.IP :=
  default ("000", "000", "000", "000")%byte ip.

(** [createFakePacket(src, dst)] on the texts of the two addresses. *)
Definition createFakePacket `{Net} (src dst : string) : bytes :=
  Routing.createFakePacket (copied (ParseIP_To4 src)) (copied (ParseIP_To4 dst)).

(** The addresses that [showRoutingSuggestions] lists as available routes
    when [processVPNPacket] finds no route: the keys of the routes, in the
    order in which Go walks the map, which is not fixed. *)
Definition available_routes (rt : Routing.RoutingTable) : gset string :=
  dom (Routing.routes rt).

End Packets.

(** ** Devices of the proofs *)

(** The text before the first dot of a string and the text after it. *)
Fixpoint cut_dot (s : string) : string * string :=
  match s with
  | EmptyString => (EmptyString, EmptyString)
  | String c rest =>
      if Ascii.eqb c "."%char then (EmptyString, rest)
      else let '(before, after) := cut_dot rest in (String c before, after)
  end.

(** The 256 bytes, and the first byte that a naming function maps to a
    given name. *)
Definition all_bytes : bytes :=
  omap (fun n => Byte.of_N (N.of_nat n)) (seq 0 256).

Definition byte_named (name : byte -> string) (s : string) : option byte :=
  List.find (fun b => String.eqb (name b) s) all_bytes.

(** The number that a character of the base64 alphabet stands for. *)
Definition sextet_of (c : ascii) : option N :=
  List.find (fun n => bool_decide (String.get (N.to_nat n) base64.encodeStd = Some c))
    (N.of_nat <$> seq 0 64).


(** The requests that [/register] accepts, with the peer they carry. *)
Definition accepted (req : Registry.Request) : option Registry.Peer :=
  if String.eqb (Registry.Method req) "POST"
  then match Registry.Decoded req with inl peer => Some peer | inr _ => None end
  else None.

(** Data for running these definitions. *)

Module Cases.

(** A packet of 21 bytes with an ICMP echo request, and one of 19 bytes. *)
Definition ping : bytes :=
  Routing.createFakePacket (Sample.ip "001") (Sample.ip "002") ++ ["008"%byte].


(** A world whose clock reads a multiple of 10000 nanoseconds. *)
Definition round_world : World :=
  {| rand_Reader := {| supply := replicate 64 "*"%byte; failure := "EOF" |};
     clock := {| reading := fun _ => Sample.issued; reads := 0 |} |}.

(** A world whose clock reads 1234 nanoseconds past such a multiple. *)
Definition odd_world : World :=
  {| rand_Reader := {| supply := replicate 64 "*"%byte; failure := "EOF" |};
     clock := {| reading := fun _ => Sample.issued + 1234; reads := 0 |} |}.

(** A reader of addresses that knows the dotted form only. *)
Definition decimal (b : byte) : string := pretty (Byte.to_N b).

Definition parse_dotted (s : string) : option Routing.IP :=
  let '(a, rest1) := cut_dot s in
  let '(b, rest2) := cut_dot rest1 in
  let '(c, d) := cut_dot rest2 in
  match byte_named decimal a, byte_named decimal b,
        byte_named decimal c, byte_named decimal d with
  | Some a, Some b, Some c, Some d => Some (a, b, c, d)
  | _, _, _, _ => None
  end.

Program Definition net : Net := {| ParseIP_To4 := parse_dotted |}.
Next Obligation.
  intros [[[a b] c] d].
  assert (Hcut : forall (x : byte) rest,
            cut_dot (pretty (Byte.to_N x) +:+ "." +:+ rest)
            = (pretty (Byte.to_N x), rest))
    by (intros x rest; destruct x; vm_compute; reflexivity).
  assert (Hname : forall x : byte, byte_named decimal (pretty (Byte.to_N x)) = Some x)
    by (intros x; destruct x; vm_compute; reflexivity).
  unfold parse_dotted, Routing.IP_String.
  by rewrite !Hcut, !Hname.
Qed.

Definition peer1 : Registry.Peer :=
  {| Registry.ID := "peer1"; Registry.Address := "192.168.1.100:9001";
     Registry.Name := "Alice's Computer" |}.

Definition peer1_moved : Registry.Peer :=
  {| Registry.ID := "peer1"; Registry.Address := "192.168.1.200:9001";
     Registry.Name := "Alice's Computer" |}.

Definition peer2 : Registry.Peer :=
  {| Registry.ID := "peer2"; Registry.Address := "192.168.1.101:9001";
     Registry.Name := "Bob's Laptop" |}.

Definition post (p : Registry.Peer) : Registry.Request :=
  {| Registry.Method := "POST"; Registry.Path := "/register";
     Registry.Decoded := inl p |}.

Definition requests : list Registry.Request :=
  [ post peer1;
    {| Registry.Method := "GET"; Registry.Path := "/register";
       Registry.Decoded := inl peer2 |};
    {| Registry.Method := "POST"; Registry.Path := "/register";
       Registry.Decoded := inr "unexpected end of JSON input" |};
    post peer1_moved ].

End Cases.

(** * Properties *)

(** ** Time *)

Lemma time_Sub_exceeds (t u : Time) (d : Duration) :
  minDuration <= d -> d < maxDuration ->
  time_Sub t u > d <-> t - u > d.
Proof.
  intros Hlo Hhi. unfold time_Sub.
  repeat case_decide; unfold minDuration, maxDuration in *; lia.
Qed.

Lemma expired_iff (now t : Time) :
  time_Since now t > 30 * Second <-> now - t > 30 * Second.
Proof.
  apply time_Sub_exceeds; unfold minDuration, maxDuration, Second; lia.
Qed.

Lemma int64_id (z : Z) : - 2 ^ 63 <= z < 2 ^ 63 -> int64 z = z.
Proof.
  intros Hz. unfold int64.
  rewrite Z.mod_small; lia.
Qed.

(** ** Messages and reasons *)

Lemma reason_of_expired (s : string) :
  reason_of ("challenge expired (age: " +:+ s +:+ ")") = Some Expired.
Proof. reflexivity. Qed.

Lemma reason_of_not_KeyMismatch (msg : string) :
  reason_of msg <> Some KeyMismatch.
Proof.
  unfold reason_of.
  repeat match goal with |- context [if ?b then _ else _] => destruct b end;
    discriminate.
Qed.

(** ** Key pairs *)

Section KeyPairs.

Context {scheme : Ed25519}.

Lemma KeyPair_public_length pub priv :
  KeyPair pub priv -> length pub = PublicKeySize.
Proof.
  intros (seed & Hlen & _ & ->). by apply publicOfSeed_length.
Qed.

Lemma KeyPair_private_length pub priv :
  KeyPair pub priv -> length priv = PrivateKeySize.
Proof.
  intros (seed & Hlen & -> & _).
  rewrite length_app, publicOfSeed_length, Hlen by done. reflexivity.
Qed.

Lemma KeyPair_verify_sign pub priv message :
  KeyPair pub priv -> verify pub message (sign priv message) = true.
Proof.
  intros (seed & Hlen & -> & ->). by apply verify_sign.
Qed.

(** The keys that [ed25519.GenerateKey] returns are a key pair. *)
Lemma GenerateKey_KeyPair rand pub priv rand' :
  ed25519_GenerateKey rand = (pub, priv, None, rand') -> KeyPair pub priv.
Proof.
  unfold ed25519_GenerateKey, io_ReadFull.
  case_decide as Hn; [|discriminate].
  intros [= <- <- _]. exists (take SeedSize (supply rand)).
  assert (Hlen : length (take SeedSize (supply rand)) = SeedSize)
    by (rewrite length_take; lia).
  split; [done|]. split; [done|].
  unfold ed25519_NewKeyFromSeed. by rewrite drop_app_length'.
Qed.

End KeyPairs.

(** ** The challenge-response protocol *)

Section AuthFacts.

Context {scheme : Ed25519} {enc : Encoding}.

(** An identity with a key pair answers every challenge, with a signature
    over the bytes that [json.Marshal] returned. *)
Lemma RespondToChallenge_returns pi c :
  KeyPair (PublicKey pi) (PrivateKey pi) ->
  RespondToChallenge pi c =
    Return {| PeerID := ID pi;
              Signature := sign (PrivateKey pi) (json_Marshal c).1 |}.
Proof.
  intros Hkp. unfold RespondToChallenge, ed25519_Sign.
  destruct (json_Marshal c) as [data err]. simpl.
  rewrite decide_True by (by eapply KeyPair_private_length). reflexivity.
Qed.

(** With a public key of the right size [VerifyResponse] returns, and
    what it returns is decided by the age first and the signature next. *)
Lemma VerifyResponse_returns now c r pk :
  length pk = PublicKeySize ->
  VerifyResponse now c r pk =
    Return
      (if decide (now - Timestamp c > 30 * Second)
       then (false, "challenge expired (age: " +:+
                    Duration_String (time_Since now (Timestamp c)) +:+ ")")
       else if verify pk (json_Marshal c).1 (Signature r)
            then (true, "authentication successful")
            else (false, "invalid signature")).
Proof.
  intros Hlen. unfold VerifyResponse, ed25519_Verify.
  destruct (decide (time_Since now (Timestamp c) > 30 * Second)) as [Hage|Hage];
    rewrite expired_iff in Hage.
  - by rewrite decide_True.
  - rewrite (decide_False (P := now - Timestamp c > 30 * Second)) by done.
    destruct (json_Marshal c) as [data err]. simpl.
    rewrite decide_True by done. simpl. by destruct (verify pk data (Signature r)).
Qed.

(** C1.  An identity whose keys are a key pair answers a challenge that
    has not expired (its age [now - Timestamp] is at most 30 seconds), and
    [VerifyResponse] on the challenge, the answer and the public key of
    that identity returns true with the message of success, which stands
    for the outcome OK. *)
Theorem VerifyResponse_own_response now pi c :
  KeyPair (PublicKey pi) (PrivateKey pi) ->
  now - Timestamp c <= 30 * Second ->
  exists response,
    RespondToChallenge pi c = Return response /\
    VerifyResponse now c response (PublicKey pi)
      = Return (true, "authentication successful") /\
    reason_of "authentication successful" = Some OK.
Proof.
  intros Hkp Hage. eexists. split; [by apply RespondToChallenge_returns|].
  split; [|reflexivity].
  rewrite VerifyResponse_returns by (by eapply KeyPair_public_length).
  rewrite decide_False by lia. simpl.
  by rewrite KeyPair_verify_sign.
Qed.

(** C3.  When the age of the challenge exceeds the maximum of 30 seconds,
    [VerifyResponse] returns false with the message of expiry, which
    stands for the outcome Expired, whatever the response, its signature
    and the public key are. *)
Theorem VerifyResponse_expired now c r pk :
  now - Timestamp c > 30 * Second ->
  VerifyResponse now c r pk
    = Return (false, "challenge expired (age: " +:+
                     Duration_String (time_Since now (Timestamp c)) +:+ ")") /\
  reason_of ("challenge expired (age: " +:+
             Duration_String (time_Since now (Timestamp c)) +:+ ")") = Some Expired.
Proof.
  intros Hage. split; [|apply reason_of_expired].
  unfold VerifyResponse. rewrite decide_True; [done|]. by apply expired_iff.
Qed.

(** C9.  Two responses with the same signature get the same result from
    [VerifyResponse] (the same return value, or the same panic), whatever
    their [PeerID] fields are. *)
Theorem VerifyResponse_ignores_PeerID now c r1 r2 pk :
  Signature r1 = Signature r2 ->
  VerifyResponse now c r1 pk = VerifyResponse now c r2 pk.
Proof.
  intros Hsig. unfold VerifyResponse. by rewrite Hsig.
Qed.

(** C2, amended.  For a public key of the ed25519 size, [VerifyResponse]
    returns one result whose message stands for exactly one of OK,
    Expired and BadSignature and never for KeyMismatch.  The age is
    checked first and the signature next, and nothing else is checked:
    the outcome is Expired exactly when the age exceeds 30 seconds,
    BadSignature exactly when it does not and the signature does not
    verify under the claimed key (as for a response signed with another
    peer's key), and OK, with the result true, exactly otherwise. *)
Theorem VerifyResponse_reason now c r pk :
  length pk = PublicKeySize ->
  exists ok msg reason,
    VerifyResponse now c r pk = Return (ok, msg) /\
    reason_of msg = Some reason /\
    reason <> KeyMismatch /\
    (reason = Expired <-> now - Timestamp c > 30 * Second) /\
    (reason = BadSignature <->
       now - Timestamp c <= 30 * Second /\
       verify pk (json_Marshal c).1 (Signature r) = false) /\
    (reason = OK <->
       now - Timestamp c <= 30 * Second /\
       verify pk (json_Marshal c).1 (Signature r) = true) /\
    (ok = true <-> reason = OK).
Proof.
  intros Hlen. rewrite VerifyResponse_returns by done.
  destruct (decide (now - Timestamp c > 30 * Second)) as [Hage|Hage].
  - eexists _, _, Expired. split; [reflexivity|].
    split; [apply reason_of_expired|].
    repeat split; try done; try lia; intros [? _]; lia.
  - destruct (verify pk (json_Marshal c).1 (Signature r)) eqn:Hv.
    + eexists _, _, OK. split; [reflexivity|]. split; [reflexivity|].
      repeat split; try done; try lia; intros [_ ?]; done.
    + eexists _, _, BadSignature. split; [reflexivity|]. split; [reflexivity|].
      repeat split; try done; try lia; intros [_ ?]; done.
Qed.

End AuthFacts.

(** ** Tampering with the nonce *)

Lemma flipBit_changes (k : nat) (b : byte) : (k < 8)%nat -> flipBit k b <> b.
Proof.
  intros Hk.
  do 8 (destruct k as [|k]; [destruct b; vm_compute; discriminate|]).
  lia.
Qed.

Lemma flipNonceBit_changes (i k : nat) (c : AuthChallenge) :
  (i < length (Challenge c))%nat -> (k < 8)%nat ->
  Challenge (flipNonceBit i k c) <> Challenge c.
Proof.
  intros Hi Hk Heq. simpl in Heq.
  destruct (lookup_lt_is_Some_2 _ _ Hi) as [b Hb].
  assert (Hb' : alter (flipBit k) i (Challenge c) !! i = Some (flipBit k b))
    by (by rewrite list_lookup_alter_eq, Hb).
  rewrite Heq, Hb in Hb'. injection Hb' as Hb'.
  by eapply flipBit_changes.
Qed.

Section Tampering.

Context {scheme : Ed25519} {enc : Encoding}.

(** When [json.Marshal] encodes both challenges and is injective where it
    succeeds, and a signature of the identity verifies for the signed
    message only, the answer to a challenge is rejected for the tampered
    challenge as an invalid signature. *)
Lemma VerifyResponse_rejects_tampered now pi c i k :
  (forall message message',
     verify (PublicKey pi) message' (sign (PrivateKey pi) message) = true ->
     message' = message) ->
  (forall c1 c2,
     (json_Marshal c1).2 = None -> (json_Marshal c2).2 = None ->
     (json_Marshal c1).1 = (json_Marshal c2).1 -> c1 = c2) ->
  (json_Marshal c).2 = None ->
  (json_Marshal (flipNonceBit i k c)).2 = None ->
  (i < length (Challenge c))%nat -> (k < 8)%nat ->
  KeyPair (PublicKey pi) (PrivateKey pi) ->
  now - Timestamp c <= 30 * Second ->
  exists response,
    RespondToChallenge pi c = Return response /\
    VerifyResponse now (flipNonceBit i k c) response (PublicKey pi)
      = Return (false, "invalid signature").
Proof.
  intros Hbind Hinj Hc Hc' Hi Hk Hkp Hage.
  eexists. split; [by apply RespondToChallenge_returns|].
  rewrite VerifyResponse_returns by (by eapply KeyPair_public_length).
  simpl. rewrite decide_False by lia.
  destruct (verify _ _ _) eqn:Hv; [|done].
  apply Hbind, Hinj in Hv; [|done..].
  exfalso. eapply flipNonceBit_changes; [exact Hi|exact Hk|]. by rewrite Hv.
Qed.

(** C4.  The errors of [json.Marshal] are dropped by the signer and by the
    verifier.  For a challenge that [json.Marshal] cannot encode (its
    timestamp has no RFC 3339 form), before and after a bit of the nonce
    is flipped, both sign and verify the empty message: the answer to the
    challenge is accepted for the tampered challenge, with the message of
    success, where the claim asks for BadSignature. *)
Theorem VerifyResponse_accepts_tampered now pi c i k e e' :
  KeyPair (PublicKey pi) (PrivateKey pi) ->
  now - Timestamp c <= 30 * Second ->
  (json_Marshal c).2 = Some e ->
  (json_Marshal (flipNonceBit i k c)).2 = Some e' ->
  exists response,
    RespondToChallenge pi c = Return response /\
    VerifyResponse now (flipNonceBit i k c) response (PublicKey pi)
      = Return (true, "authentication successful").
Proof.
  intros Hkp Hage He He'.
  eexists. split; [by apply RespondToChallenge_returns|].
  rewrite VerifyResponse_returns by (by eapply KeyPair_public_length).
  simpl. rewrite decide_False by lia.
  rewrite (json_Marshal_error _ _ He), (json_Marshal_error _ _ He').
  by rewrite KeyPair_verify_sign.
Qed.

End Tampering.

(** ** The fourth scenario of [main] *)

Module MainFacts.
Import Main.

Section ScenarioFacts.

Context {scheme : Ed25519} {enc : Encoding}.

(** The copy of the challenge shares the array of the nonce, so the change
    reaches the challenge of the verifier as well: the answer to the
    modified challenge is verified against the modified challenge, and the
    scenario reports success where it looks for a rejection. *)
Lemma scenario4_accepts now heap bob challenge :
  KeyPair (PublicKey bob) (PrivateKey bob) ->
  now - TimestampOf challenge <= 30 * Second ->
  (0 < length (default [] (heap !! ChallengeAt challenge)))%nat ->
  scenario4 now heap bob challenge = Return (true, "authentication successful").
Proof.
  intros Hkp Hage Hlen. unfold scenario4, xor_at.
  rewrite decide_True by done. simpl.
  rewrite RespondToChallenge_returns by done. simpl.
  rewrite VerifyResponse_returns by (by eapply KeyPair_public_length).
  simpl. rewrite decide_False by lia.
  by rewrite KeyPair_verify_sign.
Qed.

End ScenarioFacts.

End MainFacts.

(** ** Consecutive challenges *)

Section Issuing.

Context {scheme : Ed25519} {enc : Encoding}.

(** The clock readings behind the [Nonce] fields of the next two
    challenges: each call of [GenerateChallenge] reads the clock twice,
    and the second reading becomes the [Nonce]. *)
Lemma GenerateChallenge_Nonce w :
  Nonce (GenerateChallenge w).1 = UnixNano (reading (clock w) (S (reads (clock w)))) /\
  clock (GenerateChallenge w).2
    = {| reading := reading (clock w); reads := S (S (reads (clock w))) |}.
Proof.
  unfold GenerateChallenge, rand_Read.
  destruct (io_ReadFull (rand_Reader w) 32) as [[b err] r]. simpl. done.
Qed.

(** C7, amended.  The [Nonce] of a challenge is the wall clock reading
    taken when it is issued, not a counter: of two challenges issued one
    after the other, the later has the strictly greater [Nonce] exactly
    when the clock reading taken for it is strictly after the one taken
    for the earlier (both readings within the range of [int64]
    nanoseconds). *)
Theorem consecutive_Nonce_increases w :
  let n := reads (clock w) in
  let first := GenerateChallenge w in
  let second := GenerateChallenge first.2 in
  - 2 ^ 63 <= reading (clock w) (n + 1)%nat < 2 ^ 63 ->
  - 2 ^ 63 <= reading (clock w) (n + 3)%nat < 2 ^ 63 ->
  Nonce first.1 < Nonce second.1 <->
  reading (clock w) (n + 1)%nat < reading (clock w) (n + 3)%nat.
Proof.
  intros n first second H1 H3. subst first second.
  destruct (GenerateChallenge_Nonce w) as [Hn1 Hc1].
  destruct (GenerateChallenge_Nonce (GenerateChallenge w).2) as [Hn2 _].
  rewrite Hn1, Hn2, Hc1. simpl. unfold UnixNano.
  replace (S (S (S (reads (clock w))))) with (n + 3)%nat by (subst n; lia).
  replace (S (reads (clock w))) with (n + 1)%nat by (subst n; lia).
  by rewrite !int64_id.
Qed.

End Issuing.

(** ** Identities *)

(** The standard encoding has four characters for every group of three
    bytes, the last group padded. *)
Lemma EncodeToString_length (src : bytes) :
  String.length (base64.EncodeToString src) = (4 * ((length src + 2) / 3))%nat.
Proof.
  remember (length src) as n eqn:Hn.
  revert src Hn. induction n as [n IH] using lt_wf_ind. intros src ->.
  destruct src as [|b0 [|b1 [|b2 rest]]]; try reflexivity.
  cbn [base64.EncodeToString String.length length].
  rewrite (IH (length rest)) by (simpl; lia || reflexivity).
  replace (S (S (S (length rest))) + 2)%nat with (length rest + 2 + 1 * 3)%nat by lia.
  rewrite Nat.div_add by lia. lia.
Qed.

Section IdentityFacts.

Context {scheme : Ed25519}.

Lemma GenerateIdentity_error rand :
  (GenerateIdentity rand).1.2 = (io_ReadFull rand SeedSize).1.2.
Proof.
  unfold GenerateIdentity, ed25519_GenerateKey.
  destruct (io_ReadFull rand SeedSize) as [[seed [e|]] rand']; reflexivity.
Qed.

Lemma GenerateIdentity_ID rand pi :
  (GenerateIdentity rand).1.1 = Some pi ->
  ID pi = base64.EncodeToString (PublicKey pi).
Proof.
  unfold GenerateIdentity.
  destruct (ed25519_GenerateKey rand) as [[[pub priv] [e|]] rand']; simpl;
    [discriminate|].
  by intros [= <-].
Qed.

(** The identities of [GenerateIdentity] and of [generateTestIdentity]
    hold a key pair. *)
Lemma GenerateIdentity_KeyPair rand pi :
  (GenerateIdentity rand).1.1 = Some pi ->
  KeyPair (PublicKey pi) (PrivateKey pi).
Proof.
  unfold GenerateIdentity.
  destruct (ed25519_GenerateKey rand) as [[[pub priv] [e|]] rand'] eqn:Hgen;
    simpl; [discriminate|].
  intros [= <-]. simpl. by eapply GenerateKey_KeyPair.
Qed.

Lemma generateTestIdentity_KeyPair name w pi :
  (generateTestIdentity name w).1.1 = Some pi ->
  KeyPair (PublicKey pi) (PrivateKey pi).
Proof.
  unfold generateTestIdentity.
  destruct (ed25519_GenerateKey (rand_Reader w)) as [[[pub priv] [e|]] r] eqn:Hgen;
    simpl; [discriminate|].
  intros [= <-]. simpl. by eapply GenerateKey_KeyPair.
Qed.

(** The identifier of a generated identity has 44 characters. *)
Lemma GenerateIdentity_ID_length rand pi :
  (GenerateIdentity rand).1.1 = Some pi -> String.length (ID pi) = 44%nat.
Proof.
  intros Hgen. rewrite (GenerateIdentity_ID _ _ Hgen), EncodeToString_length.
  by rewrite (KeyPair_public_length _ _ (GenerateIdentity_KeyPair _ _ Hgen)).
Qed.

(** C8.  The error of [GenerateIdentity] is the error of reading the seed
    from the entropy source, so there is an error exactly when that read
    fails, and then no identity; without an error there is an identity.
    The [ID] of an identity is the base64 encoding of its public key, so
    two identities from [GenerateIdentity] with the same public key have
    the same [ID]. *)
Theorem GenerateIdentity_ID_of_PublicKey rand1 rand2 :
  (GenerateIdentity rand1).1.2 = (io_ReadFull rand1 SeedSize).1.2 /\
  ((GenerateIdentity rand1).1.1 = None <->
     exists e, (io_ReadFull rand1 SeedSize).1.2 = Some e) /\
  (forall pi1 pi2,
     (GenerateIdentity rand1).1.1 = Some pi1 ->
     (GenerateIdentity rand2).1.1 = Some pi2 ->
     PublicKey pi1 = PublicKey pi2 ->
     ID pi1 = ID pi2).
Proof.
  split; [apply GenerateIdentity_error|]. split.
  - unfold GenerateIdentity, ed25519_GenerateKey.
    destruct (io_ReadFull rand1 SeedSize) as [[seed [e|]] rand']; simpl.
    + split; [eauto|done].
    + split; [done|]. by intros [e ?].
  - intros pi1 pi2 H1 H2 Hpub.
    rewrite (GenerateIdentity_ID _ _ H1), (GenerateIdentity_ID _ _ H2).
    by rewrite Hpub.
Qed.

End IdentityFacts.

(** ** The routing table *)

Module RoutingFacts.
Import Routing.

Lemma AddPeer_registered info rt :
  routes_registered rt -> routes_registered (AddPeer info rt).
Proof.
  intros Hreg ip peerID Hroute. simpl in *.
  destruct (decide (ID info = peerID)) as [->|Hne].
  - rewrite lookup_insert_eq. eauto.
  - rewrite lookup_insert_ne by done. by eapply Hreg.
Qed.

Lemma AddRoute_registered ip peerID rt :
  routes_registered rt -> routes_registered (AddRoute ip peerID rt).2.
Proof.
  intros Hreg. unfold AddRoute.
  destruct (peers rt !! peerID) as [peer|] eqn:Hpeer; simpl; [|done].
  intros ip' peerID' Hroute. simpl in *.
  destruct (decide (ip = ip')) as [->|Hne].
  - rewrite lookup_insert_eq in Hroute. injection Hroute as <-. by rewrite Hpeer.
  - rewrite lookup_insert_ne in Hroute by done. by eapply Hreg.
Qed.

(** In every table built by the methods every route leads to a
    registered peer. *)
Lemma reachable_registered rt : reachable rt -> routes_registered rt.
Proof.
  induction 1 as [|info rt _ IH|ip peerID rt _ IH].
  - intros ip peerID Hroute. simpl in Hroute. by rewrite lookup_empty in Hroute.
  - by apply AddPeer_registered.
  - by apply AddRoute_registered.
Qed.

(** C10.  [AddRoute] with a peer that is not registered returns the
    error "peer ... not found" and the table as it was.  A route that
    [AddRoute] does insert leads to a registered peer, so that a table
    whose routes all lead to registered peers stays so, and every table
    built with [AddPeer] and [AddRoute] from the empty one is so. *)
Theorem AddRoute_unregistered ip peerID rt :
  (peers rt !! peerID = None ->
     AddRoute ip peerID rt = (Some ("peer " +:+ peerID +:+ " not found"), rt)) /\
  (forall rt',
     AddRoute ip peerID rt = (None, rt') ->
     routes rt' !! ip = Some peerID /\ is_Some (peers rt' !! peerID) /\
     (routes_registered rt -> routes_registered rt')) /\
  (reachable rt -> routes_registered rt).
Proof.
  split; [|split].
  - intros Hnone. unfold AddRoute. by rewrite Hnone.
  - intros rt' Hadd.
    pose proof (AddRoute_registered ip peerID rt) as Hreg.
    rewrite Hadd in Hreg. split; [|split; [|done]].
    all: revert Hadd; unfold AddRoute;
      destruct (peers rt !! peerID) as [peer|] eqn:Hpeer; [|discriminate];
      intros [= <-]; simpl.
    + by rewrite lookup_insert_eq.
    + rewrite Hpeer. eauto.
  - apply reachable_registered.
Qed.

(** ** The packet pipeline *)

(** The destination of a packet, as [processVPNPacket] looks it up. *)
Lemma processVPNPacket_parsed data rt :
  (20 <= length data)%nat ->
  processVPNPacket data rt =
    let dstIP := IP_String (slice4 data 16) in
    match routes rt !! dstIP with
    | None => NoRoute dstIP
    | Some peerID =>
        match peers rt !! peerID with
        | None => NoRoute dstIP
        | Some peer =>
            if String.eqb (Status peer) "connected"
            then Routed dstIP peer else NotConnected peer
        end
    end.
Proof.
  intros Hlen. unfold processVPNPacket, parsePacket, GetPeer.
  rewrite decide_False by lia. simpl.
  destruct (routes rt !! _) as [peerID|]; [|done].
  destruct (peers rt !! peerID) as [peer|]; [|done]. simpl.
  by destruct (String.eqb (Status peer) "connected").
Qed.

Lemma processVPNPacket_short data rt :
  (length data < 20)%nat ->
  processVPNPacket data rt = ParseError "packet too short".
Proof.
  intros Hlen. unfold processVPNPacket, parsePacket.
  by rewrite decide_True.
Qed.

(** C5, amended.  [processVPNPacket] sends a packet on exactly when the
    packet parses, its destination has a route, the peer of the route is
    registered and the [Status] of that peer is "connected".  When the
    route or the peer is missing, and when the status is anything else
    (such as PendingInbound, PendingOutbound or Blocked, and Authorized
    as well), the packet is not sent; the function has no error result
    and ends in one of its four cases. *)
Theorem processVPNPacket_forwards data rt :
  let dstIP := IP_String (slice4 data 16) in
  (forwarded (processVPNPacket data rt) = true <->
     (20 <= length data)%nat /\
     exists peerID peer,
       routes rt !! dstIP = Some peerID /\ peers rt !! peerID = Some peer /\
       Status peer = "connected") /\
  (forall peer, GetPeer dstIP rt = (peer, false) ->
     forwarded (processVPNPacket data rt) = false) /\
  (forall peer, GetPeer dstIP rt = (peer, true) ->
     Status peer <> "connected" ->
     forwarded (processVPNPacket data rt) = false) /\
  (forall peer, GetPeer dstIP rt = (peer, true) ->
     Status peer ∈ ["PendingInbound"; "PendingOutbound"; "Blocked"; "Authorized"] ->
     forwarded (processVPNPacket data rt) = false).
Proof.
  intros dstIP.
  assert (Hiff : forwarded (processVPNPacket data rt) = true <->
     (20 <= length data)%nat /\
     exists peerID peer,
       routes rt !! dstIP = Some peerID /\ peers rt !! peerID = Some peer /\
       Status peer = "connected").
  { destruct (decide (length data < 20)%nat) as [Hshort|Hlong].
    - rewrite processVPNPacket_short by done. simpl.
      split; [done|]. intros [? _]. lia.
    - rewrite processVPNPacket_parsed by lia. cbv zeta. fold dstIP.
      clearbody dstIP.
      destruct (routes rt !! dstIP) as [peerID|]; simpl.
      2: { split; [done|]. by intros (_ & ? & ? & ? & _). }
      destruct (peers rt !! peerID) as [peer|] eqn:Hpeer; simpl.
      2: { split; [done|]. intros (_ & ? & ? & [= <-] & ? & _). congruence. }
      destruct (String.eqb (Status peer) "connected") eqn:Heq; simpl.
      + apply String.eqb_eq in Heq. split; [|done].
        intros _. split; [lia|]. eauto.
      + apply String.eqb_neq in Heq. split; [done|].
        intros (_ & ? & ? & [= <-] & ? & ?). congruence. }
  assert (Hnot : forall peer, GetPeer dstIP rt = (peer, true) ->
     Status peer <> "connected" ->
     forwarded (processVPNPacket data rt) = false).
  { intros peer Hget Hstatus. apply not_true_is_false. intros Hfwd.
    apply Hiff in Hfwd as (_ & peerID & peer' & Hr & Hp & Hs).
    unfold GetPeer in Hget. rewrite Hr, Hp in Hget. congruence. }
  split; [done|]. split; [|split; [done|]].
  - intros peer Hget. apply not_true_is_false. intros Hfwd.
    apply Hiff in Hfwd as (_ & peerID & peer' & Hr & Hp & _).
    unfold GetPeer in Hget. rewrite Hr, Hp in Hget. congruence.
  - intros peer Hget Hin. apply (Hnot peer Hget).
    intros Hs. rewrite Hs in Hin.
    repeat (apply elem_of_cons in Hin as [Hin|Hin]; [discriminate|]).
    by apply elem_of_nil in Hin.
Qed.

End RoutingFacts.

(** ** The trust store *)

Module TrustFacts.
Import Trust.









End TrustFacts.

(** * The properties on concrete inputs *)

Module Runs.
Import Sample.

#[local] Existing Instance scheme.
#[local] Existing Instance enc.

Example base64_foobar :
  base64.EncodeToString ["f"; "o"; "o"; "b"; "a"]%byte = "Zm9vYmE=".
Proof. reflexivity. Qed.

(** The four scenarios of [main]: the answer of Bob under the key of Bob
    and under the key of Alice, an old challenge, a modified challenge. *)
Example scenario_normal :
  (response <-! RespondToChallenge bob challenge;
   VerifyResponse soon challenge response (PublicKey bob))
  = Return (true, "authentication successful").
Proof. vm_compute. reflexivity. Qed.

Example scenario_replay :
  (response <-! RespondToChallenge bob challenge;
   VerifyResponse late challenge response (PublicKey bob))
  = Return (false, "challenge expired (age: 31s)").
Proof. vm_compute. reflexivity. Qed.

Example scenario_modified :
  (response <-! RespondToChallenge bob challenge;
   VerifyResponse soon (flipNonceBit 0 0 challenge) response (PublicKey bob))
  = Return (false, "invalid signature").
Proof. vm_compute. reflexivity. Qed.

Example scenario_modified_shared :
  Main.scenario4 soon heap bob challenge_ref
  = Return (true, "authentication successful").
Proof. vm_compute. reflexivity. Qed.

Example scenario_modified_copied :
  Main.scenario4_copied soon heap bob challenge_ref 2
  = Return (false, "invalid signature").
Proof. vm_compute. reflexivity. Qed.

(** C1 on the answer of Bob, 5 seconds after the challenge. *)
Lemma VerifyResponse_own_response_witness :
  exists response,
    RespondToChallenge bob challenge = Return response /\
    VerifyResponse soon challenge response (PublicKey bob)
      = Return (true, "authentication successful") /\
    reason_of "authentication successful" = Some OK.
Proof.
  apply (VerifyResponse_own_response soon bob challenge).
  - exists (seed_of "b"). by repeat split.
  - by vm_compute.
Defined.

(** C2: the answer signed with the key of Bob and verified under the key
    of Alice is an invalid signature, not a key mismatch; and a claimed
    key of 31 bytes makes [VerifyResponse] panic. *)
Lemma VerifyResponse_KeyMismatch_counterexample :
  PublicKey alice <> PublicKey bob /\
  (response <-! RespondToChallenge bob challenge;
   VerifyResponse soon challenge response (PublicKey alice))
    = Return (false, "invalid signature") /\
  reason_of "invalid signature" = Some BadSignature /\
  reason_of "invalid signature" <> Some KeyMismatch /\
  VerifyResponse soon challenge bob_response (take 31 (PublicKey alice))
    = Panic "ed25519: bad public key length: 31".
Proof.
  split; [by vm_compute|]. split; [by vm_compute|].
  split; [reflexivity|]. split; [discriminate|]. by vm_compute.
Qed.

Lemma VerifyResponse_reason_witness :
  exists ok msg reason,
    VerifyResponse soon challenge bob_response (PublicKey alice) = Return (ok, msg) /\
    reason_of msg = Some reason /\
    reason <> KeyMismatch /\
    (reason = Expired <-> soon - Timestamp challenge > 30 * Second) /\
    (reason = BadSignature <->
       soon - Timestamp challenge <= 30 * Second /\
       verify (PublicKey alice) (json_Marshal challenge).1 (Signature bob_response)
         = false) /\
    (reason = OK <->
       soon - Timestamp challenge <= 30 * Second /\
       verify (PublicKey alice) (json_Marshal challenge).1 (Signature bob_response)
         = true) /\
    (ok = true <-> reason = OK).
Proof.
  apply (VerifyResponse_reason soon challenge bob_response (PublicKey alice)).
  reflexivity.
Defined.

(** C3 on the valid answer of Bob, 31 seconds after the challenge. *)
Lemma VerifyResponse_expired_witness :
  late - Timestamp challenge > 30 * Second /\
  VerifyResponse late challenge bob_response (PublicKey bob)
    = Return (false, "challenge expired (age: " +:+
                     Duration_String (time_Since late (Timestamp challenge)) +:+ ")") /\
  reason_of ("challenge expired (age: " +:+
             Duration_String (time_Since late (Timestamp challenge)) +:+ ")")
    = Some Expired.
Proof.
  split; [by vm_compute|].
  apply (VerifyResponse_expired late challenge bob_response (PublicKey bob)).
  by vm_compute.
Defined.

(** C4 on a challenge dated to the year 10000: the nonce differs after
    the flip and the answer to the original challenge is accepted. *)
Lemma VerifyResponse_accepts_tampered_witness :
  Challenge (flipNonceBit 0 0 far_challenge) <> Challenge far_challenge /\
  soon - Timestamp far_challenge <= 30 * Second /\
  exists response,
    RespondToChallenge bob far_challenge = Return response /\
    VerifyResponse soon (flipNonceBit 0 0 far_challenge) response (PublicKey bob)
      = Return (true, "authentication successful").
Proof.
  split; [by vm_compute|]. split; [by vm_compute|].
  eapply (VerifyResponse_accepts_tampered soon bob far_challenge 0 0).
  - exists (seed_of "b"). by repeat split.
  - by vm_compute.
  - reflexivity.
  - reflexivity.
Defined.

(** C7: on a clock that stands still two consecutive challenges have the
    same [Nonce]. *)
Lemma consecutive_Nonce_counterexample :
  Nonce (GenerateChallenge (GenerateChallenge still_world).2).1
    = Nonce (GenerateChallenge still_world).1 /\
  ~ Nonce (GenerateChallenge still_world).1
      < Nonce (GenerateChallenge (GenerateChallenge still_world).2).1.
Proof. split; by vm_compute. Qed.

Lemma consecutive_Nonce_increases_witness :
  Nonce (GenerateChallenge ticking_world).1
    < Nonce (GenerateChallenge (GenerateChallenge ticking_world).2).1.
Proof.
  apply (consecutive_Nonce_increases ticking_world); by vm_compute.
Defined.

(** C8 on two readers that start with the same seed. *)
Lemma GenerateIdentity_ID_of_PublicKey_witness :
  (GenerateIdentity reader64).1.1 = Some generated /\
  (GenerateIdentity reader32).1.1 = Some generated /\
  (GenerateIdentity reader64).1.2 = None /\
  ID generated = ID generated.
Proof.
  destruct (GenerateIdentity_ID_of_PublicKey reader64 reader32) as (Herr & _ & Hid).
  split; [reflexivity|]. split; [reflexivity|]. split.
  - rewrite Herr. reflexivity.
  - apply (Hid generated generated); reflexivity.
Defined.

(** C9 on the answer of Bob and the same signature under another name. *)
Lemma VerifyResponse_ignores_PeerID_witness :
  PeerID bob_response <> PeerID renamed_response /\
  VerifyResponse soon challenge bob_response (PublicKey bob)
    = VerifyResponse soon challenge renamed_response (PublicKey bob).
Proof.
  split; [by vm_compute|].
  apply (VerifyResponse_ignores_PeerID soon challenge bob_response renamed_response).
  reflexivity.
Defined.

(** C5: the packet to Alice is sent on although the status of Alice is
    "connected" and not "Authorized", and the packet to a peer whose
    status is "Authorized" is not sent on. *)
Lemma processVPNPacket_counterexample :
  Routing.processVPNPacket to_alice Routing.demo_table
    = Routing.Routed "10.66.0.2" alice_info /\
  Routing.forwarded (Routing.processVPNPacket to_alice Routing.demo_table) = true /\
  Routing.Status alice_info <> "Authorized" /\
  Routing.GetPeer "10.66.0.2" authorized_table = (erin_info, true) /\
  Routing.Status erin_info = "Authorized" /\
  Routing.forwarded (Routing.processVPNPacket to_alice authorized_table) = false.
Proof. repeat split; by vm_compute. Qed.

Lemma processVPNPacket_forwards_witness :
  Routing.forwarded (Routing.processVPNPacket to_alice Routing.demo_table) = true /\
  Routing.forwarded (Routing.processVPNPacket to_nobody Routing.demo_table) = false /\
  Routing.forwarded (Routing.processVPNPacket to_charlie Routing.demo_table) = false /\
  Routing.forwarded (Routing.processVPNPacket to_alice authorized_table) = false.
Proof.
  split; [|split; [|split]].
  - apply (RoutingFacts.processVPNPacket_forwards to_alice Routing.demo_table).
    split; [by vm_compute|]. exists "peer-alice", alice_info. by vm_compute.
  - apply (proj1 (proj2 (RoutingFacts.processVPNPacket_forwards
                           to_nobody Routing.demo_table)) Routing.PeerInfo_zero).
    by vm_compute.
  - apply (proj1 (proj2 (proj2 (RoutingFacts.processVPNPacket_forwards
                                  to_charlie Routing.demo_table))) charlie_info).
    + by vm_compute.
    + discriminate.
  - apply (proj2 (proj2 (proj2 (RoutingFacts.processVPNPacket_forwards
                                  to_alice authorized_table))) erin_info).
    + by vm_compute.
    + simpl. repeat constructor.
Defined.

Lemma demo_table_reachable : Routing.reachable Routing.demo_table.
Proof.
  unfold Routing.demo_table, Routing.demo_routes, Routing.demo_peers.
  cbn [foldl fst snd].
  repeat (apply Routing.reach_AddRoute || apply Routing.reach_AddPeer).
  apply Routing.reach_new.
Defined.

(** C10 on the table of [main]: a route to a peer that is not registered
    is refused, a route to Bob is inserted, and the routes of the table
    lead to registered peers. *)
Lemma AddRoute_unregistered_witness :
  Routing.AddRoute "10.66.0.9" "peer-eve" Routing.demo_table
    = (Some "peer peer-eve not found", Routing.demo_table) /\
  Routing.routes (Routing.AddRoute "10.66.0.9" "peer-bob" Routing.demo_table).2
    !! "10.66.0.9" = Some "peer-bob" /\
  Routing.routes_registered Routing.demo_table.
Proof.
  split; [|split].
  - apply (RoutingFacts.AddRoute_unregistered "10.66.0.9" "peer-eve" Routing.demo_table).
    by vm_compute.
  - eapply (RoutingFacts.AddRoute_unregistered "10.66.0.9" "peer-bob" Routing.demo_table).
    by vm_compute.
  - apply (RoutingFacts.AddRoute_unregistered "10.66.0.9" "peer-eve" Routing.demo_table).
    apply demo_table_reachable.
Defined.



End Runs.

(** * Further properties of the programs *)

(** ** Routes and packets *)

Module RoutingMore.
Import Routing.

Lemma cut_dot_pretty (a : byte) (rest : string) :
  cut_dot (pretty (Byte.to_N a) +:+ "." +:+ rest) = (pretty (Byte.to_N a), rest).
Proof. destruct a; vm_compute; reflexivity. Qed.

Lemma to_N_inj (a b : byte) : Byte.to_N a = Byte.to_N b -> a = b.
Proof.
  intros Heq. apply (f_equal Byte.of_N) in Heq.
  rewrite !Byte.of_to_N in Heq. by injection Heq.
Qed.

Lemma dotted_inj (a b : byte) (r1 r2 : string) :
  pretty (Byte.to_N a) +:+ "." +:+ r1 = pretty (Byte.to_N b) +:+ "." +:+ r2 ->
  a = b /\ r1 = r2.
Proof.
  intros Heq. apply (f_equal cut_dot) in Heq.
  rewrite !cut_dot_pretty in Heq. injection Heq as Hp Hr.
  split; [|done]. by apply to_N_inj, (inj pretty).
Qed.

Lemma IP_String_injective (x y : IP) : IP_String x = IP_String y -> x = y.
Proof.
  destruct x as [[[a1 b1] c1] d1], y as [[[a2 b2] c2] d2]. unfold IP_String.
  intros H. apply dotted_inj in H as [-> H].
  apply dotted_inj in H as [-> H]. apply dotted_inj in H as [-> H].
  apply (inj pretty), to_N_inj in H. by subst.
Qed.

(** Two addresses with the same dotted form are the same address, so that
    the routes of two addresses never share a key of the table. *)
Theorem IP_String_inj (x y : IP) : IP_String x = IP_String y <-> x = y.
Proof. split; [apply IP_String_injective|by intros ->]. Qed.

Lemma slice4_createFakePacket (src dst : IP) :
  slice4 (createFakePacket src dst) 12 = src /\
  slice4 (createFakePacket src dst) 16 = dst.
Proof. by destruct src as [[[? ?] ?] ?], dst as [[[? ?] ?] ?]. Qed.

Lemma length_createFakePacket (src dst : IP) :
  length (createFakePacket src dst) = 20%nat.
Proof. by destruct src as [[[? ?] ?] ?], dst as [[[? ?] ?] ?]. Qed.

Lemma parsePacket_createFakePacket (src dst : IP) :
  parsePacket (createFakePacket src dst)
    = inl {| SrcIP := src; DstIP := dst; Protocol := "001"%byte;
             Data := createFakePacket src dst |}.
Proof.
  unfold parsePacket. rewrite decide_False by (rewrite length_createFakePacket; lia).
  destruct (slice4_createFakePacket src dst) as [-> ->].
  by destruct src as [[[? ?] ?] ?], dst as [[[? ?] ?] ?].
Qed.

(** A packet made by [createFakePacket] from two texts parses, with the
    protocol number 1, to the IPv4 addresses that the texts name, and to
    0.0.0.0 where a text names none.  For texts in dotted form these are
    the addresses written.  A packet of fewer than 20 bytes does not
    parse. *)
Theorem createFakePacket_parses `{Net} (src dst : string) :
  parsePacket (Packets.createFakePacket src dst)
    = inl {| SrcIP := Packets.copied (ParseIP_To4 src);
             DstIP := Packets.copied (ParseIP_To4 dst);
             Protocol := "001"%byte;
             Data := Packets.createFakePacket src dst |} /\
  (forall x y : IP,
     parsePacket (Packets.createFakePacket (IP_String x) (IP_String y))
       = inl {| SrcIP := x; DstIP := y; Protocol := "001"%byte;
                Data := Packets.createFakePacket (IP_String x) (IP_String y) |}) /\
  (ParseIP_To4 dst = None ->
   exists packet, parsePacket (Packets.createFakePacket src dst) = inl packet /\
                  IP_String (DstIP packet) = "0.0.0.0") /\
  (forall n, (n < 20)%nat ->
     parsePacket (take n (Packets.createFakePacket src dst)) = inr "packet too short").
Proof.
  unfold Packets.createFakePacket.
  split; [apply parsePacket_createFakePacket|]. split; [|split].
  - intros x y. rewrite parsePacket_createFakePacket.
    by rewrite !ParseIP_To4_String.
  - intros Hdst. eexists. split; [apply parsePacket_createFakePacket|].
    by rewrite Hdst.
  - intros n Hn. unfold parsePacket.
    rewrite decide_True; [done|]. rewrite length_take. lia.
Qed.

(** A route to a registered peer is accepted; the address then resolves to
    the record of that peer, whatever route it had before, and every other
    address resolves as before. *)
Theorem AddRoute_GetPeer (rt : RoutingTable) (ip peerID : string) (info : PeerInfo) :
  peers rt !! peerID = Some info ->
  (AddRoute ip peerID rt).1 = None /\
  GetPeer ip (AddRoute ip peerID rt).2 = (info, true) /\
  (forall ip', ip' <> ip ->
     GetPeer ip' (AddRoute ip peerID rt).2 = GetPeer ip' rt).
Proof.
  intros Hpeer. unfold AddRoute. rewrite Hpeer. simpl.
  split; [done|]. split.
  - unfold GetPeer. simpl. by rewrite lookup_insert_eq, Hpeer.
  - intros ip' Hne. unfold GetPeer. simpl. by rewrite lookup_insert_ne.
Qed.

(** Registering a peer again replaces its record: the addresses routed to
    it resolve to the new record at once, and the addresses routed to
    other peers resolve as before. *)
Theorem AddPeer_GetPeer (rt : RoutingTable) (info : PeerInfo) (ip peerID : string) :
  routes rt !! ip = Some peerID ->
  GetPeer ip (AddPeer info rt)
    = if decide (peerID = ID info) then (info, true) else GetPeer ip rt.
Proof.
  intros Hroute. unfold GetPeer, AddPeer. simpl. rewrite Hroute.
  case_decide as Hid.
  - subst. by rewrite lookup_insert_eq.
  - by rewrite lookup_insert_ne.
Qed.

(** The records of a table built by the methods sit under their own
    identifier. *)
Lemma reachable_keyed rt :
  reachable rt -> forall k p, peers rt !! k = Some p -> ID p = k.
Proof.
  induction 1 as [|info rt _ IH|ip peerID rt _ IH]; intros k p; simpl.
  - by rewrite lookup_empty.
  - destruct (decide (ID info = k)) as [<-|Hne].
    + rewrite lookup_insert_eq. by intros [= <-].
    + rewrite lookup_insert_ne by done. apply IH.
  - unfold AddRoute. destruct (peers rt !! peerID); simpl; apply IH.
Qed.

Lemma reachable_routes rt :
  reachable rt -> forall ip peerID, routes rt !! ip = Some peerID ->
  is_Some (peers rt !! peerID).
Proof.
  induction 1 as [|info rt _ IH|ip0 peerID0 rt _ IH]; intros ip peerID; simpl.
  - by rewrite lookup_empty.
  - intros Hroute. destruct (decide (ID info = peerID)) as [<-|Hne].
    + rewrite lookup_insert_eq. eauto.
    + rewrite lookup_insert_ne by done. by eapply IH.
  - unfold AddRoute. destruct (peers rt !! peerID0) as [p0|] eqn:Hp0; simpl;
      [|apply IH].
    destruct (decide (ip0 = ip)) as [<-|Hne].
    + rewrite lookup_insert_eq. intros [= <-]. by rewrite Hp0.
    + rewrite lookup_insert_ne by done. apply IH.
Qed.

(** In a table built with [AddPeer] and [AddRoute] from the empty one, an
    address that has a route always resolves, and to a record that carries
    the identifier of the route. *)
Theorem reachable_GetPeer (rt : RoutingTable) (ip peerID : string) :
  reachable rt ->
  routes rt !! ip = Some peerID ->
  exists peer, GetPeer ip rt = (peer, true) /\ ID peer = peerID.
Proof.
  intros Hreach Hroute.
  destruct (reachable_routes rt Hreach ip peerID Hroute) as [peer Hpeer].
  exists peer. split.
  - unfold GetPeer. by rewrite Hroute, Hpeer.
  - by eapply reachable_keyed.
Qed.

(** A new route for one address leaves the forwarding decision for the
    packets to every other address as it was: no route, held back for which
    peer, or sent on to which peer.  What changes for them is the list of
    available routes that [showRoutingSuggestions] prints when there is no
    route: it gains the new address, when the peer of the route is
    registered. *)
Theorem AddRoute_other_destination (rt : RoutingTable) (x : IP) (peerID : string)
    (data : bytes) :
  slice4 data 16 <> x ->
  processVPNPacket data (AddRoute (IP_String x) peerID rt).2
    = processVPNPacket data rt /\
  Packets.available_routes (AddRoute (IP_String x) peerID rt).2
    = if decide (is_Some (peers rt !! peerID))
      then {[IP_String x]} ∪ Packets.available_routes rt
      else Packets.available_routes rt.
Proof.
  intros Hne. split.
  - unfold processVPNPacket.
    destruct (parsePacket data) as [packet|err] eqn:Hparse; [|done].
    assert (Hdst : DstIP packet = slice4 data 16).
    { unfold parsePacket in Hparse. case_decide; [done|]. by injection Hparse as <-. }
    rewrite Hdst. unfold AddRoute.
    destruct (peers rt !! peerID) as [p|]; cbn [snd]; [|done].
    unfold GetPeer. cbn [routes peers]. rewrite lookup_insert_ne; [done|].
    intros Heq. by apply IP_String_injective in Heq.
  - unfold Packets.available_routes, AddRoute.
    destruct (peers rt !! peerID) as [p|]; cbn [snd routes].
    + rewrite decide_True by eauto. apply dom_insert_L.
    + rewrite decide_False; [done|]. by intros [? ?].
Qed.

(** After a peer is registered and given an address in dotted form, a
    packet made by [createFakePacket] for the same text is sent on to the
    peer when its status is "connected" and is held back with that peer
    named when it is not.  For a text that names no IPv4 address the packet
    goes to 0.0.0.0 instead, and is dropped for want of a route unless
    0.0.0.0 has one. *)
Theorem route_end_to_end `{Net} (rt : RoutingTable) (info : PeerInfo) (src : string) :
  (forall x : IP,
     processVPNPacket (Packets.createFakePacket src (IP_String x))
       (AddRoute (IP_String x) (ID info) (AddPeer info rt)).2
     = if String.eqb (Status info) "connected"
       then Routed (IP_String x) info
       else NotConnected info) /\
  (forall dst : string,
     ParseIP_To4 dst = None ->
     routes rt !! "0.0.0.0" = None ->
     processVPNPacket (Packets.createFakePacket src dst)
       (AddRoute dst (ID info) (AddPeer info rt)).2
     = NoRoute "0.0.0.0").
Proof.
  split.
  - intros x. unfold processVPNPacket, Packets.createFakePacket.
    rewrite parsePacket_createFakePacket, ParseIP_To4_String. cbn [DstIP Packets.copied default].
    unfold AddRoute, AddPeer. cbn [peers routes]. rewrite lookup_insert_eq. cbn [snd].
    unfold GetPeer. cbn [peers routes]. rewrite !lookup_insert_eq. cbn [negb].
    by destruct (String.eqb (Status info) "connected").
  - intros dst Hdst Hnone. unfold processVPNPacket, Packets.createFakePacket.
    rewrite parsePacket_createFakePacket, Hdst. cbn [DstIP Packets.copied default].
    change (IP_String ("000", "000", "000", "000")%byte) with "0.0.0.0".
    assert (Hne : dst <> "0.0.0.0").
    { intros ->.
      pose proof (ParseIP_To4_String ("000", "000", "000", "000")%byte) as Hzero.
      change (IP_String ("000", "000", "000", "000")%byte) with "0.0.0.0" in Hzero.
      congruence. }
    unfold AddRoute, AddPeer. cbn [peers routes]. rewrite lookup_insert_eq. cbn [snd].
    unfold GetPeer. cbn [peers routes]. rewrite lookup_insert_ne by done.
    by rewrite Hnone.
Qed.

End RoutingMore.

(** ** Identities and challenges *)

Lemma length_append (s1 s2 : string) :
  String.length (s1 +:+ s2) = (String.length s1 + String.length s2)%nat.
Proof. induction s1 as [|c s1 IH]; simpl; [done|]. by rewrite IH. Qed.

Lemma short_digits (r : Z) :
  0 <= r < 1000 -> (String.length (pretty r) <= 3)%nat.
Proof.
  intros Hr.
  assert (Hall : forallb (fun n => Nat.leb (String.length (pretty (Z.of_nat n))) 3)
                   (seq 0 1000) = true) by (vm_compute; reflexivity).
  rewrite forallb_forall in Hall.
  specialize (Hall (Z.to_nat r)). rewrite Z2Nat.id in Hall by lia.
  apply Nat.leb_le, Hall, in_seq. lia.
Qed.

Section MoreAuth.

Context {scheme : Ed25519} {enc : Encoding}.

(** With a seed left in the entropy source, [generateTestIdentity] returns
    an identity named after the clock, and has read the seed and the
    clock once. *)
Lemma generateTestIdentity_returns name w :
  (32 <= length (supply (rand_Reader w)))%nat ->
  generateTestIdentity name w =
    (Some {| PublicKey := drop 32 (ed25519_NewKeyFromSeed (take 32 (supply (rand_Reader w))));
             PrivateKey := ed25519_NewKeyFromSeed (take 32 (supply (rand_Reader w)));
             ID := name +:+ "-test-id-" +:+
                   pretty (Z.rem (UnixNano (reading (clock w) (reads (clock w)))) 10000) |},
     None,
     {| rand_Reader := {| supply := drop 32 (supply (rand_Reader w));
                          failure := failure (rand_Reader w) |};
        clock := {| reading := reading (clock w); reads := S (reads (clock w)) |} |}).
Proof.
  intros Hlen. unfold generateTestIdentity, ed25519_GenerateKey, io_ReadFull, SeedSize.
  by rewrite decide_True.
Qed.

(** The first lines of [main] end in a panic whenever the clock reading
    taken for Bob ends, in its last four digits, in a number below 1000:
    the [ID] of Bob then has fewer than the 16 characters that [main]
    takes from it. *)
Theorem main_banner_panics w :
  (64 <= length (supply (rand_Reader w)))%nat ->
  0 <= Z.rem (UnixNano (reading (clock w) (S (reads (clock w))))) 10000 < 1000 ->
  exists msg, main_banner w = Panic msg.
Proof.
  intros Hlen Hrem. unfold main_banner.
  rewrite generateTestIdentity_returns by lia.
  rewrite generateTestIdentity_returns by (simpl; rewrite length_drop; lia).
  cbn [ID_of go_bind ID clock reading reads].
  destruct (slice_to _ 16) as [alice16|msg]; cbn [go_bind]; [|eauto].
  unfold slice_to at 1. rewrite decide_False; [cbn [go_bind]; eauto|].
  rewrite !length_append. pose proof (short_digits _ Hrem). simpl. lia.
Qed.

(** An identity from [generateTestIdentity] answers a challenge from
    [GenerateChallenge] so that the answer verifies under its public key,
    as long as the verifier looks at the clock no more than 30 seconds
    after the clock reading that dates the challenge. *)
Theorem generated_identity_authenticates name w pi w' now :
  (generateTestIdentity name w).1.1 = Some pi ->
  now - reading (clock w') (reads (clock w')) <= 30 * Second ->
  (response <-! RespondToChallenge pi (GenerateChallenge w').1;
   VerifyResponse now (GenerateChallenge w').1 response (PublicKey pi))
  = Return (true, "authentication successful").
Proof.
  intros Hgen Hage.
  pose proof (generateTestIdentity_KeyPair _ _ _ Hgen) as Hkp.
  rewrite RespondToChallenge_returns by done. cbn [go_bind].
  rewrite VerifyResponse_returns by (by eapply KeyPair_public_length).
  assert (Hts : Timestamp (GenerateChallenge w').1 = reading (clock w') (reads (clock w'))).
  { unfold GenerateChallenge, rand_Read.
    by destruct (io_ReadFull (rand_Reader w') 32) as [[b err] r]. }
  rewrite Hts, decide_False by lia. cbn [Signature].
  by rewrite KeyPair_verify_sign.
Qed.

(** The nonce of a challenge always has 32 bytes.  With 32 bytes left in
    the entropy source it is the next 32 bytes, which are used up; with 64
    left, the next challenge takes the 32 bytes after them. *)
Theorem GenerateChallenge_draws w :
  let entropy := supply (rand_Reader w) in
  length (Challenge (GenerateChallenge w).1) = 32%nat /\
  ((32 <= length entropy)%nat ->
     Challenge (GenerateChallenge w).1 = take 32 entropy /\
     supply (rand_Reader (GenerateChallenge w).2) = drop 32 entropy) /\
  ((64 <= length entropy)%nat ->
     Challenge (GenerateChallenge (GenerateChallenge w).2).1
       = take 32 (drop 32 entropy)).
Proof.
  intros entropy. subst entropy.
  assert (Hfirst : forall w0, (32 <= length (supply (rand_Reader w0)))%nat ->
     Challenge (GenerateChallenge w0).1 = take 32 (supply (rand_Reader w0)) /\
     supply (rand_Reader (GenerateChallenge w0).2) = drop 32 (supply (rand_Reader w0))).
  { intros w0 Hlen. unfold GenerateChallenge, rand_Read, io_ReadFull.
    by rewrite decide_True. }
  split; [|split].
  - unfold GenerateChallenge, rand_Read, io_ReadFull.
    case_decide as Hlen; simpl.
    + rewrite length_take. lia.
    + rewrite length_app, length_replicate. lia.
  - apply Hfirst.
  - intros Hlen. destruct (Hfirst w) as [_ Hrest]; [lia|].
    destruct (Hfirst (GenerateChallenge w).2) as [-> _].
    + rewrite Hrest, length_drop. lia.
    + by rewrite Hrest.
Qed.

End MoreAuth.

Section MoreIdentity.

Context {scheme : Ed25519}.

(** A message signed by an identity from [GenerateIdentity] passes
    [VerifySignature] under the public key of that identity; neither call
    panics. *)
Theorem Sign_VerifySignature rand pi message :
  (GenerateIdentity rand).1.1 = Some pi ->
  (signature <-! PeerIdentity_Sign pi message;
   VerifySignature (PublicKey pi) message signature) = Return true.
Proof.
  intros Hgen. pose proof (GenerateIdentity_KeyPair _ _ Hgen) as Hkp.
  unfold PeerIdentity_Sign, VerifySignature, ed25519_Sign, ed25519_Verify.
  rewrite decide_True by (by eapply KeyPair_private_length). cbn [go_bind].
  rewrite decide_True by (by eapply KeyPair_public_length).
  by rewrite KeyPair_verify_sign.
Qed.

(** The [ID] of an identity from [GenerateIdentity] has 44 characters, so
    that taking its first 20 characters, as [main] does, never panics. *)
Theorem GenerateIdentity_ID_prefix rand pi :
  (GenerateIdentity rand).1.1 = Some pi ->
  String.length (ID pi) = 44%nat /\
  slice_to (ID pi) 20 = Return (String.substring 0 20 (ID pi)).
Proof.
  intros Hgen. pose proof (GenerateIdentity_ID_length _ _ Hgen) as Hlen.
  split; [done|]. unfold slice_to. rewrite decide_True; [done|]. lia.
Qed.

End MoreIdentity.

(** ** The packet analyzer *)

Module AnalyzerFacts.
Import Analyzer.

Lemma at_returns (packet : bytes) (i : nat) :
  (i < length packet)%nat -> exists b, packet !! i = Some b /\ at_ packet i = Return b.
Proof.
  intros Hi. destruct (lookup_lt_is_Some_2 _ _ Hi) as [b Hb].
  exists b. split; [done|]. unfold at_. by rewrite Hb.
Qed.

Lemma analyzePacket_lines (packet : bytes) (count : Z) :
  exists out, analyzePacket packet count = Return out /\
    length out =
      if decide (length packet < 20)%nat then 1%nat
      else if decide (count <= 3)
           then if decide (packet !! 9%nat = Some "001"%byte /\ (20 < length packet)%nat)
                then 8%nat else 7%nat
           else 3%nat.
Proof.
  unfold analyzePacket.
  destruct (decide (length packet < 20)%nat) as [Hshort|Hlong]; [eauto|].
  destruct (at_returns packet 0) as (b0 & _ & ->); [lia|].
  destruct (at_returns packet 9) as (protocol & Hp & ->); [lia|].
  unfold ip_at. rewrite !decide_True by lia. cbn [go_bind].
  destruct (decide (count <= 3)) as [Hfirst|Hlater]; cbn [go_bind]; [|eauto].
  rewrite Hp.
  destruct (decide (Byte.to_N protocol = 1%N /\ (20 < length packet)%nat))
    as [[Hicmp Hlen]|Hno].
  - destruct (at_returns packet 20) as (icmpType & _ & ->); [lia|].
    cbn [go_bind]. eexists. split; [reflexivity|].
    rewrite decide_True; [reflexivity|]. split; [|done].
    f_equal. by apply RoutingMore.to_N_inj.
  - cbn [go_bind]. eexists. split; [reflexivity|].
    rewrite decide_False; [reflexivity|]. intros [[= ->] ?]. by apply Hno.
Qed.

(** [analyzePacket] never panics, whatever the packet and the counter: it
    reads the byte after the header of an ICMP packet only when there is
    one.  It prints one line for a packet of fewer than 20 bytes, three
    lines after the third packet, and seven or eight lines for the first
    three packets, eight when the packet is ICMP with at least 21 bytes. *)
Theorem analyzePacket_returns (packet : bytes) (count : Z) :
  exists out, analyzePacket packet count = Return out /\
    length out =
      if decide (length packet < 20)%nat then 1%nat
      else if decide (count <= 3)
           then if decide (packet !! 9%nat = Some "001"%byte /\ (20 < length packet)%nat)
                then 8%nat else 7%nat
           else 3%nat.
Proof. apply analyzePacket_lines. Qed.





Lemma byte_named_getProtocolName (p : byte) :
  byte_named getProtocolName (getProtocolName p) = Some p.
Proof. destruct p; vm_compute; reflexivity. Qed.

Lemma byte_named_getICMPType (t : byte) :
  byte_named getICMPType (getICMPType t) = Some t.
Proof. destruct t; vm_compute; reflexivity. Qed.

(** The names that [getProtocolName] and [getICMPType] print tell the
    numbers apart: two numbers with the same name are the same number. *)
Theorem names_tell_numbers_apart :
  (forall p q, getProtocolName p = getProtocolName q -> p = q) /\
  (forall t u, getICMPType t = getICMPType u -> t = u).
Proof.
  split.
  - intros p q Heq. pose proof (byte_named_getProtocolName p) as Hp.
    rewrite Heq, byte_named_getProtocolName in Hp. by injection Hp.
  - intros t u Heq. pose proof (byte_named_getICMPType t) as Ht.
    rewrite Heq, byte_named_getICMPType in Ht. by injection Ht.
Qed.

End AnalyzerFacts.

(** ** The registry of the bootstrap server *)

Module RegistryFacts.
Import Registry.

Lemma handleRegister_accepted (req : Request) (r : Registry) :
  (handleRegister req r).2 =
    match accepted req with
    | Some peer => RegisterPeer peer r
    | None => r
    end.
Proof.
  unfold handleRegister, accepted.
  destruct (String.eqb (Method req) "POST"); simpl; [|done].
  by destruct (Decoded req).
Qed.

(** A registry whose records sit under their own identifier. *)
Lemma values_keys (m : gmap string Peer) :
  (forall k p, m !! k = Some p -> ID p = k) ->
  ID <$> (map_to_list m).*2 = (map_to_list m).*1.
Proof.
  intros Hkeyed. rewrite <- list_fmap_compose.
  apply list_fmap_ext. intros i [k p] Hi. simpl.
  apply Hkeyed, elem_of_map_to_list. by eapply list_elem_of_lookup_2.
Qed.

Lemma serve_invariant (reqs : list Request) (r : Registry) (P : Peer -> Prop) :
  (forall k p, peers r !! k = Some p -> ID p = k /\ P p) ->
  forall k p, peers (serve reqs r) !! k = Some p ->
    ID p = k /\ (P p \/ exists req, req ∈ reqs /\ accepted req = Some p).
Proof.
  revert r P. induction reqs as [|req reqs IH]; intros r P Hinv k p Hlook.
  - destruct (Hinv k p Hlook). auto.
  - unfold serve in Hlook. simpl in Hlook. fold (serve reqs (handleRegister req r).2) in Hlook.
    rewrite handleRegister_accepted in Hlook.
    apply (IH _ (fun q => P q \/ accepted req = Some q)) in Hlook.
    + destruct Hlook as [Hk [[HP|Hacc]|(req' & Hin & Hacc)]]; split; try done.
      * by left.
      * right. exists req. split; [left|done].
      * right. exists req'. split; [by right|done].
    + intros k' p'. destruct (accepted req) as [peer|] eqn:Hacc.
      * simpl. destruct (decide (ID peer = k')) as [<-|Hne].
        -- rewrite lookup_insert_eq. intros [= <-]. auto.
        -- rewrite lookup_insert_ne by done. intros Hl.
           destruct (Hinv _ _ Hl). auto.
      * intros Hl. destruct (Hinv _ _ Hl). auto.
Qed.

(** A peer that has just been registered is in every list that
    [GetPeers] can return, and the list has one entry more than before
    when the identifier is new and as many as before when it replaces a
    record. *)
Theorem RegisterPeer_GetPeers (r : Registry) (peer : Peer) (result : list Peer) :
  GetPeers (RegisterPeer peer r) result ->
  peer ∈ result /\
  length result =
    match peers r !! ID peer with
    | Some _ => size (peers r)
    | None => S (size (peers r))
    end.
Proof.
  unfold GetPeers. intros Hperm. split.
  - rewrite Hperm. apply list_elem_of_fmap. exists (ID peer, peer). split; [done|].
    apply elem_of_map_to_list. simpl. by rewrite lookup_insert_eq.
  - rewrite Hperm, length_fmap, length_map_to_list. simpl.
    destruct (peers r !! ID peer) as [old|] eqn:Hold.
    + by rewrite map_size_insert_Some.
    + by rewrite map_size_insert_None.
Qed.

(** After any sequence of requests to [/register] of a server that starts
    empty, a list that [GetPeers] returns has no two peers with the same
    identifier, and each of its peers was the body of a POST request that
    decoded. *)
Theorem serve_GetPeers (reqs : list Request) (result : list Peer) :
  GetPeers (serve reqs NewRegistry) result ->
  NoDup (ID <$> result) /\
  (forall peer, peer ∈ result ->
     exists req, req ∈ reqs /\ Method req = "POST" /\ Decoded req = inl peer).
Proof.
  unfold GetPeers. intros Hperm.
  assert (Hinv : forall k p, peers (serve reqs NewRegistry) !! k = Some p ->
            ID p = k /\ (False \/ exists req, req ∈ reqs /\ accepted req = Some p)).
  { apply serve_invariant. intros k p. simpl. by rewrite lookup_empty. }
  split.
  - rewrite Hperm, values_keys by (intros k p Hl; by destruct (Hinv k p Hl)).
    apply NoDup_fst_map_to_list.
  - intros peer Hin. rewrite Hperm in Hin.
    apply list_elem_of_fmap in Hin as ([k p] & -> & Hin).
    apply elem_of_map_to_list in Hin.
    destruct (Hinv k p Hin) as [_ [[]|(req & Hreq & Hacc)]].
    exists req. split; [done|]. unfold accepted in Hacc.
    destruct (String.eqb (Method req) "POST") eqn:Hm; [|done].
    apply String.eqb_eq in Hm. split; [done|].
    by destruct (Decoded req) as [q|]; [injection Hacc as ->|].
Qed.

Lemma serve_app (reqs1 reqs2 : list Request) (r : Registry) :
  serve (reqs1 ++ reqs2) r = serve reqs2 (serve reqs1 r).
Proof. unfold serve. apply foldl_app. Qed.

Lemma serve_keeps (reqs : list Request) (r : Registry) (peer : Peer) :
  peers r !! ID peer = Some peer ->
  (forall req q, req ∈ reqs -> accepted req = Some q -> ID q <> ID peer) ->
  peers (serve reqs r) !! ID peer = Some peer.
Proof.
  revert r. induction reqs as [|req reqs IH]; intros r Hlook Hother; [done|].
  unfold serve. simpl. fold (serve reqs (handleRegister req r).2).
  apply IH.
  - rewrite handleRegister_accepted.
    destruct (accepted req) as [q|] eqn:Hacc; [|done]. simpl.
    rewrite lookup_insert_ne; [done|]. eapply Hother; [left|done].
  - intros req' q Hin. apply Hother. by right.
Qed.

(** The last accepted registration under an identifier is the one the
    registry holds: later requests that are refused, or that register
    other identifiers, leave it in place. *)
Theorem serve_last_registration (before later : list Request) (req : Request)
    (peer : Peer) (r : Registry) :
  Method req = "POST" ->
  Decoded req = inl peer ->
  (forall req' q, req' ∈ later -> accepted req' = Some q -> ID q <> ID peer) ->
  peers (serve (before ++ req :: later) r) !! ID peer = Some peer.
Proof.
  intros Hm Hd Hlater. rewrite serve_app.
  unfold serve at 1. simpl. fold (serve later (handleRegister req (serve before r)).2).
  apply serve_keeps; [|done].
  rewrite handleRegister_accepted. unfold accepted. rewrite Hm, Hd. simpl.
  by rewrite lookup_insert_eq.
Qed.

End RegistryFacts.

(** ** The encoding of the identifier *)

Section Sextets.
Local Open Scope N_scope.

Lemma land_shiftl_low x y k : y < 2 ^ k -> N.land (N.shiftl x k) y = 0.
Proof.
  intros Hy. apply N.bits_inj. intros i. rewrite N.land_spec, N.bits_0.
  destruct (N.lt_ge_cases i k) as [Hi|Hi].
  - by rewrite N.shiftl_spec_low.
  - rewrite <- (N.mod_small y (2 ^ k)) by done.
    rewrite N.mod_pow2_bits_high by done. apply andb_false_r.
Qed.

Lemma lor_shiftl_add x y k : y < 2 ^ k -> N.lor (N.shiftl x k) y = x * 2 ^ k + y.
Proof.
  intros Hy. rewrite <- N.lxor_lor, <- N.add_nocarry_lxor by (by apply land_shiftl_low).
  by rewrite N.shiftl_mul_pow2.
Qed.

Lemma u_bound (b : byte) : base64.u b < 256.
Proof. pose proof (Byte.to_N_bounded b). unfold base64.u. lia. Qed.

Lemma val3_add (b0 b1 b2 : byte) :
  N.lor (N.lor (N.shiftl (base64.u b0) 16) (N.shiftl (base64.u b1) 8)) (base64.u b2)
  = base64.u b0 * 65536 + base64.u b1 * 256 + base64.u b2.
Proof.
  pose proof (u_bound b0). pose proof (u_bound b1). pose proof (u_bound b2).
  rewrite (lor_shiftl_add (base64.u b0) _ 16).
  2: { rewrite N.shiftl_mul_pow2. change (2 ^ 8) with 256. change (2 ^ 16) with 65536. lia. }
  rewrite (N.shiftl_mul_pow2 _ 8). change (2 ^ 8) with 256. change (2 ^ 16) with 65536.
  replace (base64.u b0 * 65536 + base64.u b1 * 256)
    with (N.shiftl (base64.u b0 * 256 + base64.u b1) 8)
    by (rewrite N.shiftl_mul_pow2; change (2 ^ 8) with 256; lia).
  rewrite lor_shiftl_add by done. rewrite N.shiftl_mul_pow2. lia.
Qed.

Lemma val2_add (b0 b1 : byte) :
  N.lor (N.shiftl (base64.u b0) 16) (N.shiftl (base64.u b1) 8)
  = base64.u b0 * 65536 + base64.u b1 * 256 + 0.
Proof.
  pose proof (val3_add b0 b1 "000"%byte) as H.
  change (base64.u "000") with 0 in H. by rewrite N.lor_0_r in H.
Qed.

Lemma val1_add (b0 : byte) :
  N.shiftl (base64.u b0) 16 = base64.u b0 * 65536 + 0 * 256 + 0.
Proof.
  pose proof (val3_add b0 "000"%byte "000"%byte) as H.
  change (base64.u "000") with 0 in H. by rewrite N.shiftl_0_l, !N.lor_0_r in H.
Qed.

Lemma sextet_arith v s : N.land (N.shiftr v s) 63 = (v / 2 ^ s) mod 64.
Proof. rewrite N.shiftr_div_pow2. apply (N.land_ones _ 6). Qed.

Lemma digit_sextet v s :
  sextet_of (base64.digit v s) = Some ((v / 2 ^ s) mod 64).
Proof.
  rewrite <- sextet_arith. unfold base64.digit.
  set (i := N.land (N.shiftr v s) 63).
  assert (Hi : i < 64).
  { subst i. rewrite sextet_arith. by apply N.mod_lt. }
  assert (Hall : forallb (fun n =>
      bool_decide (sextet_of (match String.get n base64.encodeStd with
                              | Some c => c | None => base64.StdPadding end)
                   = Some (N.of_nat n))) (seq 0 64) = true) by (vm_compute; reflexivity).
  rewrite forallb_forall in Hall. specialize (Hall (N.to_nat i)).
  rewrite N2Nat.id in Hall. eapply bool_decide_eq_true_1, Hall, in_seq. lia.
Qed.

Lemma digit_not_padding v s : base64.digit v s <> base64.StdPadding.
Proof.
  intros Heq. pose proof (digit_sextet v s) as Hs. rewrite Heq in Hs.
  vm_compute in Hs. discriminate.
Qed.

Lemma digit_inj v w s :
  base64.digit v s = base64.digit w s -> (v / 2 ^ s) mod 64 = (w / 2 ^ s) mod 64.
Proof.
  intros Heq. pose proof (digit_sextet v s) as Hs.
  rewrite Heq, digit_sextet in Hs. by injection Hs.
Qed.

Lemma sextets v : v < 16777216 ->
  v = ((v / 262144) mod 64) * 262144 + ((v / 4096) mod 64) * 4096
      + ((v / 64) mod 64) * 64 + (v / 1) mod 64.
Proof.
  intros Hv. zify. Z.to_euclidean_division_equations. lia.
Qed.

Lemma low_sextet (x y : N) : ((x * 65536 + y * 256 + 0) / 1) mod 64 = 0.
Proof. zify. Z.to_euclidean_division_equations. lia. Qed.

Lemma mid_sextet (x : N) : ((x * 65536 + 0 * 256 + 0) / 64) mod 64 = 0.
Proof. zify. Z.to_euclidean_division_equations. lia. Qed.

Lemma group_inj a0 a1 a2 b0 b1 b2 :
  a0 < 256 -> a1 < 256 -> a2 < 256 -> b0 < 256 -> b1 < 256 -> b2 < 256 ->
  let va := a0 * 65536 + a1 * 256 + a2 in
  let vb := b0 * 65536 + b1 * 256 + b2 in
  (va / 2 ^ 18) mod 64 = (vb / 2 ^ 18) mod 64 ->
  (va / 2 ^ 12) mod 64 = (vb / 2 ^ 12) mod 64 ->
  (va / 2 ^ 6) mod 64 = (vb / 2 ^ 6) mod 64 ->
  (va / 2 ^ 0) mod 64 = (vb / 2 ^ 0) mod 64 ->
  a0 = b0 /\ a1 = b1 /\ a2 = b2.
Proof.
  intros ? ? ? ? ? ? va vb H18 H12 H6 H0.
  change (2 ^ 18) with 262144 in *. change (2 ^ 12) with 4096 in *.
  change (2 ^ 6) with 64 in *. change (2 ^ 0) with 1 in *.
  assert (va = vb).
  { rewrite (sextets va), (sextets vb) by (subst va vb; lia).
    by rewrite H18, H12, H6, H0. }
  subst va vb. lia.
Qed.

End Sextets.

Lemma u_inj (a b : byte) : base64.u a = base64.u b -> a = b.
Proof.
  unfold base64.u. intros Heq. apply (f_equal Byte.of_N) in Heq.
  rewrite !Byte.of_to_N in Heq. by injection Heq.
Qed.

Lemma EncodeToString_inj (src1 src2 : bytes) :
  base64.EncodeToString src1 = base64.EncodeToString src2 -> src1 = src2.
Proof.
  remember (length src1) as n eqn:Hn. revert src1 src2 Hn.
  induction n as [n IH] using lt_wf_ind. intros src1 src2 -> Heq.
  destruct src1 as [|a0 [|a1 [|a2 rest1]]], src2 as [|b0 [|b1 [|b2 rest2]]];
    cbn [base64.EncodeToString] in Heq; try discriminate; try reflexivity;
    injection Heq; intros;
    try match goal with
        | H : base64.digit _ _ = base64.StdPadding |- _ =>
            by destruct (digit_not_padding _ _ H)
        | H : base64.StdPadding = base64.digit _ _ |- _ =>
            by destruct (digit_not_padding _ _ (eq_sym H))
        end;
    repeat match goal with
           | H : base64.digit _ _ = base64.digit _ _ |- _ => apply digit_inj in H
           end.
  - rewrite !val1_add in *.
    destruct (group_inj (base64.u a0) 0 0 (base64.u b0) 0 0) as (Ha & _);
      try apply u_bound; try done.
    + cbv zeta. change (2 ^ 6)%N with 64%N. by rewrite !mid_sextet.
    + cbv zeta. change (2 ^ 0)%N with 1%N. by rewrite !low_sextet.
    + by rewrite (u_inj _ _ Ha).
  - rewrite !val2_add in *.
    destruct (group_inj (base64.u a0) (base64.u a1) 0 (base64.u b0) (base64.u b1) 0)
      as (Ha & Hb & _); try apply u_bound; try done.
    + cbv zeta. change (2 ^ 0)%N with 1%N. by rewrite !low_sextet.
    + by rewrite (u_inj _ _ Ha), (u_inj _ _ Hb).
  - rewrite !val3_add in *.
    destruct (group_inj (base64.u a0) (base64.u a1) (base64.u a2)
                (base64.u b0) (base64.u b1) (base64.u b2))
      as (Ha & Hb & Hc); try apply u_bound; try done.
    rewrite (u_inj _ _ Ha), (u_inj _ _ Hb), (u_inj _ _ Hc). do 3 f_equal.
    eapply (IH (length rest1)); [simpl; lia|reflexivity|done].
Qed.

(** Two identities from [GenerateIdentity] with the same [ID] have the
    same public key: the identifier names one key only. *)
Theorem ID_determines_PublicKey `{Ed25519} rand1 rand2 pi1 pi2 :
  (GenerateIdentity rand1).1.1 = Some pi1 ->
  (GenerateIdentity rand2).1.1 = Some pi2 ->
  ID pi1 = ID pi2 ->
  PublicKey pi1 = PublicKey pi2.
Proof.
  intros H1 H2 Hid. apply EncodeToString_inj.
  by rewrite <- (GenerateIdentity_ID _ _ H1), <- (GenerateIdentity_ID _ _ H2).
Qed.

(** * The further properties on concrete inputs *)

Module MoreRuns.
Import Sample Cases.

#[local] Existing Instance scheme.
#[local] Existing Instance enc.

Example banner_round_clock :
  main_banner round_world
  = Panic "runtime error: slice bounds out of range [:16] with length 15".
Proof. vm_compute. reflexivity. Qed.

Example analyze_ping :
  length <$> (match Analyzer.analyzePacket ping 1 with
              | Return out => Some out
              | Panic _ => None
              end) = Some 8%nat.
Proof. vm_compute. reflexivity. Qed.

Lemma AddRoute_GetPeer_witness :
  (Routing.AddRoute "10.66.0.9" "peer-alice" Routing.demo_table).1 = None /\
  Routing.GetPeer "10.66.0.9"
    (Routing.AddRoute "10.66.0.9" "peer-alice" Routing.demo_table).2
    = (alice_info, true) /\
  Routing.GetPeer "10.66.0.3"
    (Routing.AddRoute "10.66.0.9" "peer-alice" Routing.demo_table).2
    = Routing.GetPeer "10.66.0.3" Routing.demo_table.
Proof.
  destruct (RoutingMore.AddRoute_GetPeer Routing.demo_table "10.66.0.9" "peer-alice"
              alice_info) as (Herr & Hget & Hother); [by vm_compute|].
  split; [done|]. split; [done|]. by apply Hother.
Defined.

Lemma AddPeer_GetPeer_witness :
  Routing.GetPeer "10.66.0.4"
    (Routing.AddPeer
       {| Routing.ID := "peer-charlie"; Routing.Name := "Charlie's Phone";
          Routing.Address := "10.0.0.50:9001"; Routing.Status := "connected" |}
       Routing.demo_table)
  = if decide ("peer-charlie" = "peer-charlie")
    then ({| Routing.ID := "peer-charlie"; Routing.Name := "Charlie's Phone";
             Routing.Address := "10.0.0.50:9001"; Routing.Status := "connected" |}, true)
    else Routing.GetPeer "10.66.0.4" Routing.demo_table.
Proof.
  apply (RoutingMore.AddPeer_GetPeer Routing.demo_table
           {| Routing.ID := "peer-charlie"; Routing.Name := "Charlie's Phone";
              Routing.Address := "10.0.0.50:9001"; Routing.Status := "connected" |}
           "10.66.0.4" "peer-charlie").
  by vm_compute.
Defined.

Lemma demo_reachable : Routing.reachable Routing.demo_table.
Proof.
  unfold Routing.demo_table, Routing.demo_routes, Routing.demo_peers.
  cbn [foldl fst snd].
  repeat (apply Routing.reach_AddRoute || apply Routing.reach_AddPeer).
  apply Routing.reach_new.
Defined.

Lemma reachable_GetPeer_witness :
  exists peer,
    Routing.GetPeer "10.66.0.5" Routing.demo_table = (peer, true) /\
    Routing.ID peer = "peer-david".
Proof.
  apply (RoutingMore.reachable_GetPeer Routing.demo_table "10.66.0.5" "peer-david").
  - apply demo_reachable.
  - by vm_compute.
Defined.

Lemma AddRoute_other_destination_witness :
  Routing.processVPNPacket to_alice
    (Routing.AddRoute (Routing.IP_String (ip "004")) "peer-bob" Routing.demo_table).2
  = Routing.processVPNPacket to_alice Routing.demo_table /\
  Packets.available_routes
    (Routing.AddRoute (Routing.IP_String (ip "004")) "peer-bob" Routing.demo_table).2
  = if decide (is_Some (Routing.peers Routing.demo_table !! "peer-bob"))
    then {[Routing.IP_String (ip "004")]} ∪ Packets.available_routes Routing.demo_table
    else Packets.available_routes Routing.demo_table.
Proof.
  apply (RoutingMore.AddRoute_other_destination Routing.demo_table (ip "004")
           "peer-bob" to_alice).
  by vm_compute.
Defined.

Example packet_to_alice :
  Routing.processVPNPacket (Packets.createFakePacket (H := net) "10.66.0.1" "10.66.0.2")
    Routing.demo_table
  = Routing.Routed "10.66.0.2" alice_info.
Proof. vm_compute. reflexivity. Qed.

Example packet_to_loopback_text :
  Routing.processVPNPacket (Packets.createFakePacket (H := net) "10.66.0.1" "::1")
    (Routing.AddRoute "::1" "peer-alice" Routing.demo_table).2
  = Routing.NoRoute "0.0.0.0".
Proof. vm_compute. reflexivity. Qed.


Lemma scenario4_accepts_witness :
  Main.scenario4 soon heap bob challenge_ref
  = Return (true, "authentication successful").
Proof.
  apply (MainFacts.scenario4_accepts soon heap bob challenge_ref).
  - exists (seed_of "b"). by repeat split.
  - by vm_compute.
  - vm_compute. lia.
Defined.

Lemma main_banner_panics_witness : exists msg, main_banner round_world = Panic msg.
Proof.
  apply (main_banner_panics round_world).
  - vm_compute. lia.
  - by vm_compute.
Defined.

Lemma generated_identity_authenticates_witness :
  (generateTestIdentity "bob" odd_world).1.1
    = Some {| PublicKey := PublicKey generated; PrivateKey := PrivateKey generated;
              ID := "bob-test-id-1234" |} /\
  (response <-!
     RespondToChallenge
       {| PublicKey := PublicKey generated; PrivateKey := PrivateKey generated;
          ID := "bob-test-id-1234" |} (GenerateChallenge still_world).1;
   VerifyResponse soon (GenerateChallenge still_world).1 response (PublicKey generated))
  = Return (true, "authentication successful").
Proof.
  split; [reflexivity|].
  apply (generated_identity_authenticates "bob" odd_world
           {| PublicKey := PublicKey generated; PrivateKey := PrivateKey generated;
              ID := "bob-test-id-1234" |} still_world soon).
  - reflexivity.
  - by vm_compute.
Defined.

Lemma Sign_VerifySignature_witness :
  (signature <-! PeerIdentity_Sign generated nonce32;
   VerifySignature (PublicKey generated) nonce32 signature) = Return true.
Proof.
  apply (Sign_VerifySignature reader64 generated nonce32). reflexivity.
Defined.

Lemma GenerateIdentity_ID_prefix_witness :
  String.length (ID generated) = 44%nat /\
  slice_to (ID generated) 20 = Return (String.substring 0 20 (ID generated)).
Proof.
  apply (GenerateIdentity_ID_prefix reader64 generated). reflexivity.
Defined.

Lemma ID_determines_PublicKey_witness :
  (GenerateIdentity reader64).1.1 = Some generated /\
  (GenerateIdentity reader32).1.1 = Some generated /\
  PublicKey generated = PublicKey generated.
Proof.
  split; [reflexivity|]. split; [reflexivity|].
  apply (ID_determines_PublicKey reader64 reader32 generated generated);
    reflexivity.
Defined.

Lemma RegisterPeer_GetPeers_witness :
  peer2 ∈ [peer2; peer1] /\
  length [peer2; peer1] =
    match Registry.peers (Registry.RegisterPeer peer1 Registry.NewRegistry)
          !! Registry.ID peer2 with
    | Some _ => size (Registry.peers (Registry.RegisterPeer peer1 Registry.NewRegistry))
    | None => S (size (Registry.peers (Registry.RegisterPeer peer1 Registry.NewRegistry)))
    end.
Proof.
  apply (RegistryFacts.RegisterPeer_GetPeers
           (Registry.RegisterPeer peer1 Registry.NewRegistry) peer2 [peer2; peer1]).
  unfold Registry.GetPeers.
  replace ((map_to_list (Registry.peers
             (Registry.RegisterPeer peer2
                (Registry.RegisterPeer peer1 Registry.NewRegistry)))).*2)
    with (Registry.GetPeers_some
            (Registry.RegisterPeer peer2
               (Registry.RegisterPeer peer1 Registry.NewRegistry))) by reflexivity.
  vm_compute Registry.GetPeers_some.
  first [reflexivity | apply Permutation_swap].
Defined.

Lemma serve_GetPeers_witness :
  NoDup (Registry.ID <$> [peer1_moved]) /\
  (forall peer, peer ∈ [peer1_moved] ->
     exists req, req ∈ requests /\ Registry.Method req = "POST" /\
                 Registry.Decoded req = inl peer).
Proof.
  apply (RegistryFacts.serve_GetPeers requests [peer1_moved]).
  unfold Registry.GetPeers.
  replace ((map_to_list (Registry.peers (Registry.serve requests Registry.NewRegistry))).*2)
    with (Registry.GetPeers_some (Registry.serve requests Registry.NewRegistry))
    by reflexivity.
  vm_compute Registry.GetPeers_some. reflexivity.
Defined.

Lemma serve_last_registration_witness :
  Registry.peers (Registry.serve requests Registry.NewRegistry) !! "peer1"
  = Some peer1_moved.
Proof.
  apply (RegistryFacts.serve_last_registration (take 3 requests) [] (post peer1_moved)
           peer1_moved Registry.NewRegistry).
  - reflexivity.
  - reflexivity.
  - intros req' q Hin. by apply elem_of_nil in Hin.
Defined.

End MoreRuns.
